(** * The isochrone layer and cache manager of coffee-milk-beer

    A shallow embedding of [IsochroneManager] (src/js/isochrone.js), of the
    layer configuration of src/js/map-config.js, of the time bands of
    src/js/config.js and of [generateIsochrones] of src/js/main.js, with the
    properties that the specification states about them.

    Modelling conventions.
    - A JavaScript [Map] is a [gmap], a [Set] a [gset]. An object literal
      used as a lookup table is the finite map of its own properties; where
      it is read at a category, which can be any string, the members that
      every object inherits from [Object.prototype] are found as well.
    - Template strings are string concatenations; integers are printed in
      decimal by [pretty].
    - A coordinate is written as the decimal that JavaScript prints for it.
      Its value is the binary64 number nearest to that decimal, and
      [location.lat * 1000] is the binary64 product, rounded to nearest
      with ties to even, as [SpecFloat] of the Standard Library defines
      the operations of IEEE 754.
    - The renderer (MapLibre's map) is a collaborator: its registered
      sources and layers are state of the model, and what it decides on its
      own (which calls it rejects, when a source reports that it is loaded)
      is read from a [Renderer] oracle.
    - An [async] method is split at its only suspension point into the part
      that runs up to the [await] and the part that runs when the awaited
      promise settles. *)

From Stdlib Require Import ZArith List Ascii String.
From Stdlib Require SpecFloat.
From stdpp Require Import gmap strings pretty list fin_maps.

Local Open Scope Z_scope.
Set Warnings "-clear-no-such-hyp".

(** ** Numbers and strings *)

(** The decimal [mantissa * 10^(-places)]: a number as it is written and
    printed. *)
Record number := Number { mantissa : Z; places : nat }.

Definition pow10 (k : nat) : Z := 10 ^ Z.of_nat k.

(** Trailing zeros of the fraction are not printed. *)
Fixpoint normalize (m : Z) (k : nat) : Z * nat :=
  match k with
  | O => (m, O)
  | S k' => if decide (m `mod` 10 = 0) then normalize (m `div` 10) k' else (m, k)
  end.

(** *** Binary64 *)

(** A JavaScript number is a binary64 floating-point number: 53 bits of
    precision, binary exponents below 1024. *)
Definition prec : Z := 53.
Definition emax : Z := 1024.

(** The binary64 number nearest to [m / 10^k], a tie going to the even
    mantissa; beyond the largest finite number it is an infinity. *)
Definition nearest (negative : bool) (m : positive) (k : nat) : SpecFloat.spec_float :=
  let '(q, e, l) := SpecFloat.SFdiv_core_binary prec emax (Z.pos m) 0 (pow10 k) 0 in
  SpecFloat.binary_round_aux prec emax negative q e l.

(** The value of a number that is written as a decimal. *)
Definition to_binary64 (x : number) : SpecFloat.spec_float :=
  let '(m, k) := normalize (mantissa x) (places x) in
  match m with
  | 0 => SpecFloat.S754_zero false
  | Z.pos p => nearest false p k
  | Z.neg p => nearest true p k
  end.

(** What [Math.round] returns: an integer, or its argument when that is
    infinite or not a number. Zero stands for both zeros, which print
    alike and compare alike. *)
Inductive integral :=
| Integer (z : Z)
| Infinity (negative : bool)
| NaN.

#[global] Instance integral_eq_dec : EqDecision integral.
Proof. solve_decision. Defined.

(** [Math.round(x)]: the nearest integer, a half rounding up. The result is
    exact: [floor(x + 1/2)] of the value [±m * 2^e]. *)
Definition Math_round (x : SpecFloat.spec_float) : integral :=
  match x with
  | SpecFloat.S754_zero _ => Integer 0
  | SpecFloat.S754_infinity negative => Infinity negative
  | SpecFloat.S754_nan => NaN
  | SpecFloat.S754_finite negative m e =>
      let n := if negative then Z.neg m else Z.pos m in
      Integer (if decide (0 ≤ e) then n * 2 ^ e
               else (2 * n + 2 ^ (- e)) `div` 2 ^ (1 - e))
  end.

(** [Math.round(x * 1000)]: the product is the binary64 product. *)
Definition round_times_1000 (x : number) : integral :=
  Math_round (SpecFloat.SFmul prec emax (to_binary64 x)
                (SpecFloat.binary_normalize prec emax 1000 0 false)).

(** [`${n}`] for what [Math.round] returns (the notation of integers of a
    magnitude below 1e21; beyond it JavaScript prints an exponent). *)
Definition integral_to_string (n : integral) : string :=
  match n with
  | Integer z => pretty z
  | Infinity false => "Infinity"
  | Infinity true => "-Infinity"
  | NaN => "NaN"
  end.

(** [n >= z] and [n <= z] for an integer [z]. *)
Definition integral_ge (n : integral) (z : Z) : bool :=
  match n with
  | Integer x => bool_decide (z ≤ x)
  | Infinity negative => negb negative
  | NaN => false
  end.

Definition integral_le (n : integral) (z : Z) : bool :=
  match n with
  | Integer x => bool_decide (x ≤ z)
  | Infinity negative => negative
  | NaN => false
  end.

Fixpoint zeros (n : nat) : string :=
  match n with
  | O => ""
  | S n' => "0" +:+ zeros n'
  end.

Definition zero_pad (width : nat) (s : string) : string :=
  zeros (width - String.length s) +:+ s.

(** [`${x}`] for a number: sign, integer part, and the fraction if any
    (the notation of magnitudes from 1e-6 up to 1e21; beyond them JavaScript
    prints an exponent). *)
Definition number_to_string (x : number) : string :=
  let '(m, k) := normalize (mantissa x) (places x) in
  let a := Z.abs m in
  (if decide (m < 0) then "-" else "") +:+
  pretty (a `div` pow10 k) +:+
  match k with
  | O => ""
  | S _ => "." +:+ zero_pad k (pretty (a `mod` pow10 k))
  end.

(** [s.replace(pat, rep)] with a string pattern: the first occurrence only. *)
Fixpoint replace_first (pat rep s : string) : string :=
  if String.prefix pat s
  then rep +:+ String.substring (String.length pat) (String.length s - String.length pat) s
  else match s with
       | EmptyString => EmptyString
       | String c s' => String c (replace_first pat rep s')
       end.

(** *** Objects *)

(** The members that every object literal inherits from
    [Object.prototype]. *)
Definition Object_prototype : list string :=
  ["constructor"; "__defineGetter__"; "__defineSetter__"; "hasOwnProperty";
   "__lookupGetter__"; "__lookupSetter__"; "isPrototypeOf";
   "propertyIsEnumerable"; "toString"; "valueOf"; "__proto__";
   "toLocaleString"].

(** What reading a table of colour strings at any key gives, when it gives
    something: a string of the table, or the member that the table inherits
    under that name. An inherited member is a function (for [__proto__] the
    prototype object), so it is truthy, and it is no colour. *)
Inductive Value :=
| Str (s : string)
| Inherited (name : string).

(** [colors[key] || fallback] for a table [colors] of non-empty strings:
    an own property comes before an inherited one, and the fallback is
    taken only when the key names neither. *)
Definition lookup_or (colors : gmap string string) (key fallback : string) : Value :=
  match colors !! key with
  | Some c => Str c
  | None => if decide (key ∈ Object_prototype) then Inherited key else Str fallback
  end.

(** ** config.js *)

Module ISOCHRONE_CONFIG.
Definition timeIntervals : list Z := [5; 10; 15].
Definition defaultTime : Z := 10.
End ISOCHRONE_CONFIG.

(** ** map-config.js *)

Module MapConfig.

(** The table [colors] of [getIsochroneColor]. *)
Definition band_colors (r g b : string) : gmap Z string :=
  {[ 5 := "rgba(" +:+ r +:+ ", " +:+ g +:+ ", " +:+ b +:+ ", 0.3)";
     10 := "rgba(" +:+ r +:+ ", " +:+ g +:+ ", " +:+ b +:+ ", 0.5)";
     15 := "rgba(" +:+ r +:+ ", " +:+ g +:+ ", " +:+ b +:+ ", 0.7)" ]}.

Definition colors : gmap string (gmap Z string) :=
  {[ "coffee" := band_colors "146" "64" "14";
     "bar" := band_colors "220" "38" "38";
     "grocery" := band_colors "254" "243" "199" ]}.

(** [colors.coffee]: the entry of the fallback category. *)
Definition colors_coffee : gmap Z string := band_colors "146" "64" "14".

(** [colors[poiType]?.[timeInterval] || colors.coffee[timeInterval]];
    [None] is [undefined]. No colour of the table is the empty string, so
    [||] takes its right operand exactly when the left lookup fails. At the
    name of a member of [Object.prototype], [colors[poiType]] is that
    member, which has no property under a number, so that the lookup fails
    there as it does at a name that the table does not have. *)
Definition getIsochroneColor (poiType : string) (timeInterval : Z) : option string :=
  match colors !! poiType ≫= (.!! timeInterval) with
  | Some c => Some c
  | None => colors_coffee !! timeInterval
  end.

(** The table [colors] of [getIsochroneOutlineColor]. *)
Definition outline_colors : gmap string string :=
  {[ "coffee" := "#92400e"; "bar" := "#dc2626"; "grocery" := "#fbbf24" ]}.

(** [colors[poiType] || colors.coffee]; the band is not looked at. *)
Definition getIsochroneOutlineColor (poiType : string) (timeInterval : Z) : Value :=
  lookup_or outline_colors poiType "#92400e".

Record Paint := {
  fill_color : option string;
  fill_opacity : number;
  fill_outline_color : Value
}.

(** A layer configuration. [filter] holds the band [t] of the expression
    [['==', ['get', 'time'], t]]; [source] and [source_layer] are absent
    until the manager sets them, and [visibility] (the layout property)
    until it is set on the layer. *)
Record LayerConfig := {
  id : string;
  type : string;
  paint : Paint;
  filter : Z;
  source : option string;
  source_layer : option string;
  visibility : option string
}.

Definition createLayerConfig (poiType : string) (timeInterval : Z) : LayerConfig :=
  {| id := poiType +:+ "-isochrone-" +:+ pretty timeInterval;
     type := "fill";
     paint := {| fill_color := getIsochroneColor poiType timeInterval;
                 fill_opacity := Number 6 1;
                 fill_outline_color := getIsochroneOutlineColor poiType timeInterval |};
     filter := timeInterval;
     source := None;
     source_layer := None;
     visibility := None |}.

(** The paint of a marker layer. *)
Record CirclePaint := {
  circle_radius : Z;
  circle_color : Value;
  circle_stroke_color : string;
  circle_stroke_width : Z;
  circle_opacity : number
}.

(** A marker layer configuration; [marker_filter] holds the category [p] of
    the expression [['==', ['get', 'type'], p]]. *)
Record POILayerConfig := {
  marker_id : string;
  marker_type : string;
  marker_paint : CirclePaint;
  marker_filter : string
}.

(** The table [colors] of [getPOIColor]. *)
Definition poi_colors : gmap string string :=
  {[ "coffee" := "#92400e"; "bar" := "#dc2626"; "grocery" := "#fbbf24" ]}.

(** [colors[poiType] || colors.coffee] *)
Definition getPOIColor (poiType : string) : Value :=
  lookup_or poi_colors poiType "#92400e".

Definition createPOILayerConfig (poiType : string) : POILayerConfig :=
  {| marker_id := poiType +:+ "-markers";
     marker_type := "circle";
     marker_paint := {| circle_radius := 6;
                        circle_color := getPOIColor poiType;
                        circle_stroke_color := "#ffffff";
                        circle_stroke_width := 2;
                        circle_opacity := Number 8 1 |};
     marker_filter := poiType |}.

End MapConfig.

(** ** isochrone.js *)

Module Isochrone.
Import MapConfig.

Record Location := { lat : number; lng : number }.

(** *** The renderer *)

(** A registered source: [{ type: 'vector', url }]. *)
Record SourceSpec := { source_type : string; url : string }.

(** The state of the map that the manager reads and writes: the
    registered sources and the added layers, by id. *)
Record MapState := {
  sources : gmap string SourceSpec;
  layers : gmap string LayerConfig
}.

(** What the renderer and the page decide: the origin of the page, the
    source and layer ids whose registration throws, and how many
    milliseconds after its registration a source fires the [sourcedata]
    event with [isSourceLoaded] ([None]: never). *)
Record Renderer := {
  origin : string;
  rejects_source : string → bool;
  rejects_layer : string → bool;
  source_loaded_after : string → option N
}.

Definition getSource (mp : MapState) (sourceId : string) : option SourceSpec :=
  sources mp !! sourceId.

Definition getLayer (mp : MapState) (layerId : string) : option LayerConfig :=
  layers mp !! layerId.

(** [map.addSource]; [None] when the call throws. *)
Definition addSource (R : Renderer) (mp : MapState) (sourceId : string)
    (spec : SourceSpec) : option MapState :=
  if rejects_source R sourceId then None
  else Some {| sources := <[sourceId := spec]> (sources mp); layers := layers mp |}.

(** [map.addLayer]; [None] when the call throws. A layer whose id is
    taken is not added a second time, and the call does not throw for it
    unless the oracle says so. *)
Definition addLayer (R : Renderer) (mp : MapState) (cfg : LayerConfig) : option MapState :=
  if rejects_layer R (id cfg) then None
  else match layers mp !! id cfg with
       | Some _ => Some mp
       | None => Some {| sources := sources mp; layers := <[id cfg := cfg]> (layers mp) |}
       end.

Definition removeLayer (mp : MapState) (layerId : string) : MapState :=
  {| sources := sources mp; layers := delete layerId (layers mp) |}.

(** [map.setLayoutProperty(layerId, 'visibility', value)] *)
Definition setVisibility (mp : MapState) (layerId value : string) : MapState :=
  {| sources := sources mp;
     layers := alter (λ c, {| id := id c; type := type c; paint := paint c;
                              filter := filter c; source := source c;
                              source_layer := source_layer c;
                              visibility := Some value |})
                     layerId (layers mp) |}.

(** [map.setPaintProperty] for ['fill-color'] and then for
    ['fill-outline-color']. *)
Definition setPaintColors (mp : MapState) (layerId : string)
    (color : option string) (outlineColor : Value) : MapState :=
  {| sources := sources mp;
     layers := alter (λ c, {| id := id c; type := type c;
                              paint := {| fill_color := color;
                                          fill_opacity := fill_opacity (paint c);
                                          fill_outline_color := outlineColor |};
                              filter := filter c; source := source c;
                              source_layer := source_layer c;
                              visibility := visibility c |})
                     layerId (layers mp) |}.

(** *** The result descriptor *)

(** [properties.time] and [properties.duration] of a feature. *)
Record Feature := { time : option Z; duration : option Z }.

Record Properties := {
  poi_type : string;
  location : Location;
  time_intervals : list Z
}.

Record FeatureCollection := {
  collection_type : string;
  features : list Feature;
  properties : Properties
}.

Record Statistics := { total : nat; byTime : gmap Z nat }.

(** *** The manager *)

Record IsochroneManager := {
  map : MapState;
  isochroneData : gmap string FeatureCollection;
  activeLayers : gset string;
  currentLocation : option Location;
  pmtilesSources : gmap string string
}.

(** [new IsochroneManager(map)] *)
Definition new (mp : MapState) : IsochroneManager :=
  {| map := mp; isochroneData := ∅; activeLayers := ∅;
     currentLocation := None; pmtilesSources := ∅ |}.

Definition empty_map : MapState := {| sources := ∅; layers := ∅ |}.

(** The source id of [initializePMTilesSource]: the Source Key. *)
Definition sourceId (poiType : string) (loc : Location) : string :=
  "isochrones-" +:+ poiType +:+ "-" +:+ integral_to_string (round_times_1000 (lat loc))
    +:+ "-" +:+ integral_to_string (round_times_1000 (lng loc)).

(** The key of [isochroneData] in [loadIsochrones]. *)
Definition cacheKey (poiType : string) (loc : Location) : string :=
  poiType +:+ "-" +:+ number_to_string (lat loc) +:+ "-" +:+ number_to_string (lng loc).

Definition layerId (poiType : string) (time : Z) : string :=
  poiType +:+ "-isochrone-" +:+ pretty time.

Definition getPMTilesFileName (poiType : string) (loc : Location) : string :=
  let lat := round_times_1000 (lat loc) in
  let lng := round_times_1000 (lng loc) in
  if integral_ge lat 43600 && integral_le lat 43700
     && integral_ge lng (-70250) && integral_le lng (-70200)
  then poiType +:+ "_Portland_ME_isochrones.pmtiles"
  else poiType +:+ "_Portland_ME_isochrones.pmtiles".

(** How a call of [initializePMTilesSource] ends its synchronous part:
    it returns, it throws, or it hands back the promise that waits for
    the source. *)
Inductive Completion :=
| Returned
| Threw
| Awaiting (sourceId : string).

Definition initializePMTilesSource (R : Renderer) (m : IsochroneManager)
    (poiType : string) (loc : Location) : IsochroneManager * Completion :=
  let sid := sourceId poiType loc in
  match getSource (map m) sid with
  | Some _ =>
      ({| map := map m; isochroneData := isochroneData m;
          activeLayers := activeLayers m; currentLocation := currentLocation m;
          pmtilesSources := <[poiType := sid]> (pmtilesSources m) |}, Returned)
  | None =>
      let pmtilesFile := getPMTilesFileName poiType loc in
      let pmtilesUrl := origin R +:+ "/pmtiles/" +:+ pmtilesFile in
      match addSource R (map m) sid
              {| source_type := "vector"; url := "pmtiles://" +:+ pmtilesUrl |} with
      | None => (m, Threw)
      | Some mp =>
          ({| map := mp; isochroneData := isochroneData m;
              activeLayers := activeLayers m; currentLocation := currentLocation m;
              pmtilesSources := <[poiType := sid]> (pmtilesSources m) |}, Awaiting sid)
      end
  end.

(** The promise of [initializePMTilesSource] is fulfilled by the first
    [sourcedata] event of its source with [isSourceLoaded], unless the
    timer of 10000 ms has fired before. *)
Definition SOURCE_TIMEOUT_MS : N := 10000.

Inductive Settlement := Fulfilled | Rejected.

Definition settlement (R : Renderer) (sid : string) : Settlement :=
  match source_loaded_after R sid with
  | Some t => if decide (t < SOURCE_TIMEOUT_MS)%N then Fulfilled else Rejected
  | None => Rejected
  end.

Definition createMockIsochroneData (poiType : string) (loc : Location) : FeatureCollection :=
  {| collection_type := "FeatureCollection";
     features := [];
     properties := {| poi_type := poiType; location := loc;
                      time_intervals := ISOCHRONE_CONFIG.timeIntervals |} |}.

(** [loadIsochrones] after its [await]: the promise was fulfilled (or
    [initializePMTilesSource] had returned), or it was rejected and the
    [catch] returns [null]. *)
Definition loadIsochrones_settled (s : Settlement) (m : IsochroneManager)
    (loc : Location) (poiType : string) : IsochroneManager * option FeatureCollection :=
  match s with
  | Fulfilled =>
      let mockData := createMockIsochroneData poiType loc in
      ({| map := map m;
          isochroneData := <[cacheKey poiType loc := mockData]> (isochroneData m);
          activeLayers := activeLayers m; currentLocation := currentLocation m;
          pmtilesSources := pmtilesSources m |}, Some mockData)
  | Rejected => (m, None)
  end.

(** [loadIsochrones] up to its [await]: either the call is over with a
    result, or it is suspended on the promise of a source. *)
Inductive LoadStep :=
| Done (result : option FeatureCollection)
| Suspended (sourceId : string).

Definition loadIsochrones_call (R : Renderer) (m : IsochroneManager)
    (loc : Location) (poiType : string) : IsochroneManager * LoadStep :=
  let key := cacheKey poiType loc in
  let m1 := {| map := map m; isochroneData := isochroneData m;
               activeLayers := activeLayers m; currentLocation := Some loc;
               pmtilesSources := pmtilesSources m |} in
  match isochroneData m1 !! key with
  | Some data => (m1, Done (Some data))
  | None =>
      match initializePMTilesSource R m1 poiType loc with
      | (m2, Returned) =>
          let '(m3, r) := loadIsochrones_settled Fulfilled m2 loc poiType in (m3, Done r)
      | (m2, Threw) => (m2, Done None)
      | (m2, Awaiting sid) => (m2, Suspended sid)
      end
  end.

(** An awaited call of [loadIsochrones] during which nothing else runs. *)
Definition loadIsochrones (R : Renderer) (m : IsochroneManager)
    (loc : Location) (poiType : string) : IsochroneManager * option FeatureCollection :=
  match loadIsochrones_call R m loc poiType with
  | (m', Done r) => (m', r)
  | (m', Suspended sid) => loadIsochrones_settled (settlement R sid) m' loc poiType
  end.

(** *** Calls in one turn *)

(** The time, in milliseconds after the registration, at which the promise
    of a source settles: at the [sourcedata] event, or when the timer
    fires. *)
Definition settle_time (R : Renderer) (sid : string) : N :=
  match source_loaded_after R sid with
  | Some t => N.min t SOURCE_TIMEOUT_MS
  | None => SOURCE_TIMEOUT_MS
  end.

(** Two categories requested in one turn at one location, as
    [generateAllIsochrones] requests the active categories: each call runs up
    to its [await] in the order of the requests, and the suspended calls go
    on in the order in which their promises settle. The result is the final
    manager with what the first and the second call return. *)
Definition loadTogether (R : Renderer) (m : IsochroneManager) (loc : Location)
    (poiType1 poiType2 : string)
    : IsochroneManager * option FeatureCollection * option FeatureCollection :=
  let '(m1, s1) := loadIsochrones_call R m loc poiType1 in
  let '(m2, s2) := loadIsochrones_call R m1 loc poiType2 in
  match s1, s2 with
  | Done r1, Done r2 => (m2, r1, r2)
  | Done r1, Suspended sid2 =>
      let '(m3, r2) := loadIsochrones_settled (settlement R sid2) m2 loc poiType2 in
      (m3, r1, r2)
  | Suspended sid1, Done r2 =>
      let '(m3, r1) := loadIsochrones_settled (settlement R sid1) m2 loc poiType1 in
      (m3, r1, r2)
  | Suspended sid1, Suspended sid2 =>
      if decide (settle_time R sid1 ≤ settle_time R sid2)%N
      then
        let '(m3, r1) := loadIsochrones_settled (settlement R sid1) m2 loc poiType1 in
        let '(m4, r2) := loadIsochrones_settled (settlement R sid2) m3 loc poiType2 in
        (m4, r1, r2)
      else
        let '(m3, r2) := loadIsochrones_settled (settlement R sid2) m2 loc poiType2 in
        let '(m4, r1) := loadIsochrones_settled (settlement R sid1) m3 loc poiType1 in
        (m4, r1, r2)
  end.

(** *** Layers *)

(** [list.forEach(f)] inside a [try] whose [catch] only logs: [f] returns
    [None] when it throws, which ends the loop and keeps the state that
    was reached. *)
Fixpoint forEach_try {A S : Type} (f : S → A → option S) (l : list A) (s : S) : S :=
  match l with
  | [] => s
  | x :: l' =>
      match f s x with
      | Some s' => forEach_try f l' s'
      | None => s
      end
  end.

(** The body of the loop of [addIsochroneLayers] for one time band. Reading
    [this.currentLocation.lat] in [getPMTilesFileName] throws when no
    location is set, outside the inner [try]; a throwing [map.addLayer] is
    caught by the inner [try]. *)
Definition addIsochroneLayer (R : Renderer) (poiType pmtilesSource : string)
    (m : IsochroneManager) (time : Z) : option IsochroneManager :=
  let layerId := layerId poiType time in
  let layerConfig := createLayerConfig poiType time in
  match currentLocation m with
  | None => None
  | Some loc =>
      let pmtilesFile := getPMTilesFileName poiType loc in
      let sourceLayerName := replace_first ".pmtiles" "" pmtilesFile in
      let layerConfig :=
        {| id := id layerConfig; type := type layerConfig; paint := paint layerConfig;
           filter := filter layerConfig;
           source := Some pmtilesSource;
           source_layer := Some sourceLayerName;
           visibility := visibility layerConfig |} in
      match addLayer R (map m) layerConfig with
      | Some mp =>
          Some {| map := mp; isochroneData := isochroneData m;
                  activeLayers := {[layerId]} ∪ activeLayers m;
                  currentLocation := currentLocation m;
                  pmtilesSources := pmtilesSources m |}
      | None => Some m
      end
  end.

(** [addIsochroneLayers(poiType, data)]; [data] is not read. *)
Definition addIsochroneLayers (R : Renderer) (m : IsochroneManager)
    (poiType : string) (data : option FeatureCollection) : IsochroneManager :=
  match pmtilesSources m !! poiType with
  | None => m
  | Some pmtilesSource =>
      forEach_try (addIsochroneLayer R poiType pmtilesSource)
        ISOCHRONE_CONFIG.timeIntervals m
  end.

Definition removeIsochroneLayer (poiType : string) (m : IsochroneManager)
    (time : Z) : IsochroneManager :=
  let layerId := layerId poiType time in
  match getLayer (map m) layerId with
  | Some _ =>
      {| map := removeLayer (map m) layerId; isochroneData := isochroneData m;
         activeLayers := activeLayers m ∖ {[layerId]};
         currentLocation := currentLocation m;
         pmtilesSources := pmtilesSources m |}
  | None => m
  end.

Definition removeIsochroneLayers (m : IsochroneManager) (poiType : string)
    : IsochroneManager :=
  foldl (removeIsochroneLayer poiType) m ISOCHRONE_CONFIG.timeIntervals.

(** [clearAll()]: the layers of [activeLayers] leave the map, and the
    cache and [activeLayers] are emptied. *)
Definition clearAll (m : IsochroneManager) : IsochroneManager :=
  {| map := {| sources := sources (map m);
               layers := base.filter (λ kv, kv.1 ∉ activeLayers m) (layers (map m)) |};
     isochroneData := ∅; activeLayers := ∅;
     currentLocation := currentLocation m;
     pmtilesSources := pmtilesSources m |}.

(** *** Styling of the manager's own *)

Definition colors : gmap string (gmap Z string) :=
  {[ "coffee" := band_colors "146" "64" "14";
     "bar" := band_colors "220" "38" "38";
     "grocery" := band_colors "254" "243" "199" ]}.

Definition getIsochroneColor (poiType : string) (timeInterval : Z) : option string :=
  match colors !! poiType ≫= (.!! timeInterval) with
  | Some c => Some c
  | None => band_colors "146" "64" "14" !! timeInterval
  end.

Definition outline_colors : gmap string string :=
  {[ "coffee" := "#92400e"; "bar" := "#dc2626"; "grocery" := "#fbbf24" ]}.

Definition getIsochroneOutlineColor (poiType : string) (timeInterval : Z) : Value :=
  lookup_or outline_colors poiType "#92400e".

Definition with_map (m : IsochroneManager) (mp : MapState) : IsochroneManager :=
  {| map := mp; isochroneData := isochroneData m; activeLayers := activeLayers m;
     currentLocation := currentLocation m; pmtilesSources := pmtilesSources m |}.

Definition toggleIsochroneLayers (m : IsochroneManager) (poiType : string)
    (visible : bool) : IsochroneManager :=
  foldl (λ m time,
           let layerId := layerId poiType time in
           match getLayer (map m) layerId with
           | Some _ =>
               with_map m (setVisibility (map m) layerId
                             (if visible then "visible" else "none"))
           | None => m
           end)
        m ISOCHRONE_CONFIG.timeIntervals.

Definition updateIsochroneColors (m : IsochroneManager) (poiType : string)
    : IsochroneManager :=
  foldl (λ m time,
           let layerId := layerId poiType time in
           match getLayer (map m) layerId with
           | Some _ =>
               let color := getIsochroneColor poiType time in
               let outlineColor := getIsochroneOutlineColor poiType time in
               with_map m (setPaintColors (map m) layerId color outlineColor)
           | None => m
           end)
        m ISOCHRONE_CONFIG.timeIntervals.

(** *** Statistics *)

(** [`${x}`] where [x] may be [undefined]. *)
Definition template (x : option number) : string :=
  match x with
  | Some n => number_to_string n
  | None => "undefined"
  end.

(** [a || b] on numbers that may be [undefined]: [0] is falsy. *)
Definition or_else (a b : option Z) : option Z :=
  match a with
  | Some x => if decide (x = 0) then b else Some x
  | None => b
  end.

(** The key that [getStatistics] reads. *)
Definition statisticsKey (m : IsochroneManager) (poiType : string) : string :=
  poiType +:+ "-" +:+ template (lat <$> currentLocation m)
          +:+ "-" +:+ template (lng <$> currentLocation m).

(** [getStatistics(poiType)]; [features] of a cached descriptor is always
    an array, which is truthy. *)
Definition getStatistics (m : IsochroneManager) (poiType : string) : option Statistics :=
  match isochroneData m !! statisticsKey m poiType with
  | None => None
  | Some data =>
      Some {| total := length (features data);
              byTime :=
                foldl (λ byTime t,
                         <[t := length (List.filter
                                  (λ f, bool_decide (or_else (time f) (duration f) = Some t))
                                  (features data))]> byTime)
                      ∅ ISOCHRONE_CONFIG.timeIntervals |}
  end.

Definition setCurrentLocation (m : IsochroneManager) (loc : option Location)
    : IsochroneManager :=
  {| map := map m; isochroneData := isochroneData m; activeLayers := activeLayers m;
     currentLocation := loc; pmtilesSources := pmtilesSources m |}.

End Isochrone.

Import Isochrone.

(** ** main.js *)

Module App.

(** [generateIsochrones(poiType)], as far as the manager is concerned: the
    category is loaded at the location of the application, and when the load
    returns a descriptor its layers are added. *)
Definition generateIsochrones (R : Renderer) (m : IsochroneManager) (loc : Location)
    (poiType : string) : IsochroneManager :=
  let '(m', data) := loadIsochrones R m loc poiType in
  match data with
  | Some _ => addIsochroneLayers R m' poiType data
  | None => m'
  end.

End App.

(** The application of main.js, as far as its state is the manager, the
    location, the active categories and the elements of the page that it
    writes. *)
Module Main.

(** [Object.keys(POI_CONFIG)] *)
Definition POI_TYPES : list string := ["coffee"; "bar"; "grocery"].

(** An element of the page: its class list and its text. *)
Record Element := { classList : gset string; textContent : string }.

Record CoffeeMilkBeerApp := {
  isochroneManager : IsochroneManager;
  currentLocation : option Location;
  activePOITypes : gset string;
  document : gmap string Element
}.

(** [updatePOICount(poiType, data)]: [data] is [null] or an object with an
    array [features], of which the length is shown. An element that does
    not exist is not written. *)
Definition updatePOICount {A : Type} (doc : gmap string Element) (poiType : string)
    (data : option (list A)) : gmap string Element :=
  alter (λ countElement,
           {| classList := classList countElement;
              textContent := match data with
                             | Some features => pretty (length features)
                             | None => "0"
                             end |})
        (poiType +:+ "-count") doc.

(** An awaited call of [generateIsochrones(poiType)]. *)
Definition generateIsochrones (R : Renderer) (app : CoffeeMilkBeerApp) (poiType : string)
    : CoffeeMilkBeerApp :=
  match currentLocation app with
  | None => app
  | Some loc =>
      let '(m, data) := loadIsochrones R (isochroneManager app) loc poiType in
      match data with
      | Some d =>
          {| isochroneManager := addIsochroneLayers R m poiType data;
             currentLocation := currentLocation app;
             activePOITypes := activePOITypes app;
             document := updatePOICount (document app) poiType (Some (features d)) |}
      | None =>
          {| isochroneManager := m;
             currentLocation := currentLocation app;
             activePOITypes := activePOITypes app;
             document := document app |}
      end
  end.

(** An awaited call of [togglePOIType(poiType, visible)]. *)
Definition togglePOIType (R : Renderer) (app : CoffeeMilkBeerApp) (poiType : string)
    (visible : bool) : CoffeeMilkBeerApp :=
  if visible then
    let app1 := {| isochroneManager := isochroneManager app;
                   currentLocation := currentLocation app;
                   activePOITypes := {[poiType]} ∪ activePOITypes app;
                   document := document app |} in
    match currentLocation app1 with
    | Some _ => generateIsochrones R app1 poiType
    | None => app1
    end
  else
    {| isochroneManager := removeIsochroneLayers (isochroneManager app) poiType;
       currentLocation := currentLocation app;
       activePOITypes := activePOITypes app ∖ {[poiType]};
       document := updatePOICount (A := Feature) (document app) poiType None |}.

(** [setActiveTimeInterval(poiType, time)] *)
Definition setActiveTimeInterval (app : CoffeeMilkBeerApp) (poiType : string) (time : Z)
    : CoffeeMilkBeerApp :=
  {| isochroneManager := toggleIsochroneLayers (isochroneManager app) poiType true;
     currentLocation := currentLocation app;
     activePOITypes := activePOITypes app;
     document :=
       foldl (λ doc t,
                alter (λ button,
                         {| classList :=
                              {["bg-opacity-" +:+ pretty (Z.min (20 + t * 10) 60)]}
                              ∪ (classList button
                                 ∖ {[ "bg-opacity-40"; "bg-opacity-50"; "bg-opacity-60" ]});
                            textContent := textContent button |})
                      (poiType +:+ "-" +:+ pretty t) doc)
             (document app) ISOCHRONE_CONFIG.timeIntervals |}.

(** [updateSidebarCounts()]: for every active category the total of its
    statistics is shown, as the length of an array of that many objects. *)
Definition updateSidebarCounts (app : CoffeeMilkBeerApp) : CoffeeMilkBeerApp :=
  {| isochroneManager := isochroneManager app;
     currentLocation := currentLocation app;
     activePOITypes := activePOITypes app;
     document :=
       foldl (λ doc poiType,
                if decide (poiType ∈ activePOITypes app) then
                  let stats := getStatistics (isochroneManager app) poiType in
                  updatePOICount doc poiType ((λ s, replicate (total s) ()) <$> stats)
                else doc)
             (document app) POI_TYPES |}.

End Main.

(** * Vocabulary of the properties *)

(** ** Characters *)

Abbreviation chars := String.list_ascii_of_string.

(** The characters ["0"] to ["9"]. *)
Definition is_digit (c : ascii) : Prop :=
  ((48 <=? N_of_ascii c)%N && (N_of_ascii c <=? 57)%N) = true.

Definition digit_value (c : ascii) : N := (N_of_ascii c - 48)%N.

(** The number that a string of digits writes. *)
Definition value (l : list ascii) : N := foldl (λ a c, 10 * a + digit_value c)%N 0%N l.

(** A character of a printed number. *)
Definition numeric (c : ascii) : Prop := is_digit c ∨ c = "."%char.

(** The three parts of a printed number, for a normalized mantissa [m]
    with [k] decimal places. *)
Definition sign_chars (m : Z) : list ascii :=
  if decide (m < 0) then ["-"%char] else [].

Definition whole_chars (m : Z) (k : nat) : list ascii :=
  chars (pretty (Z.abs m `div` pow10 k)).

Definition fraction_digits (m : Z) (k : nat) : list ascii :=
  chars (zero_pad k (pretty (Z.abs m `mod` pow10 k))).

Definition fraction_chars (m : Z) (k : nat) : list ascii :=
  match k with
  | O => []
  | S _ => "."%char :: fraction_digits m k
  end.

(** ** Keys, styles, layers *)

(** The location at the resolution of the source id. *)
Definition quantize (loc : Location) : integral * integral :=
  (round_times_1000 (lat loc), round_times_1000 (lng loc)).

(** Rounding to 3 decimal digits, as the specification words the
    quantization: the nearest thousandth of the decimal as it is written,
    a half rounding up, counted in thousandths. *)
Definition round_3_decimals (x : number) : Z :=
  (2000 * mantissa x + pow10 (places x)) `div` (2 * pow10 (places x)).

Definition quantize_3_decimals (loc : Location) : Z * Z :=
  (round_3_decimals (lat loc), round_3_decimals (lng loc)).

(** The three categories of the colour tables. *)
Definition known_category (poiType : string) : Prop :=
  poiType = "coffee" ∨ poiType = "bar" ∨ poiType = "grocery".

(** The pair has an entry of its own in the table of fill colours. *)
Definition styled (poiType : string) (timeInterval : Z) : Prop :=
  is_Some (MapConfig.colors !! poiType ≫= (.!! timeInterval)).

(** The layer ids of a category over the configured time bands. *)
Definition layerIds (poiType : string) : gset string :=
  list_to_set (layerId poiType <$> ISOCHRONE_CONFIG.timeIntervals).

(** Every layer of [activeLayers] is a layer of the map. *)
Definition consistent (m : IsochroneManager) : Prop :=
  ∀ l, l ∈ activeLayers m → is_Some (layers (map m) !! l).

(** The layer configuration that [addIsochroneLayers] hands to the map. *)
Definition layerConfigFor (poiType pmtilesSource : string) (loc : Location) (t : Z)
    : MapConfig.LayerConfig :=
  let c := MapConfig.createLayerConfig poiType t in
  {| MapConfig.id := MapConfig.id c; MapConfig.type := MapConfig.type c;
     MapConfig.paint := MapConfig.paint c; MapConfig.filter := MapConfig.filter c;
     MapConfig.source := Some pmtilesSource;
     MapConfig.source_layer :=
       Some (replace_first ".pmtiles" "" (getPMTilesFileName poiType loc));
     MapConfig.visibility := MapConfig.visibility c |}.

(** A name without a hyphen, as the three categories of the
    configuration are. *)
Definition plain (s : string) : Prop := Forall (λ c, c ≠ "-"%char) (chars s).

(** A name without a dot. *)
Definition dotless (s : string) : Prop := Forall (λ c, c ≠ "."%char) (chars s).

(** The band under which [getStatistics] counts a feature. *)
Definition band_of (f : Feature) : option Z := or_else (time f) (duration f).

(** The number of the features that [getStatistics] counts under a band. *)
Definition count_band (t : Z) (fs : list Feature) : nat :=
  length (List.filter (λ f, bool_decide (band_of f = Some t)) fs).

(** Whether [getStatistics] counts a feature under one of the configured
    bands. *)
Definition in_band (f : Feature) : bool :=
  bool_decide (band_of f ∈ Some <$> ISOCHRONE_CONFIG.timeIntervals).

(** [setLayoutProperty(_, 'visibility', value)] on a layer configuration. *)
Definition with_visibility (value : string) (c : MapConfig.LayerConfig)
    : MapConfig.LayerConfig :=
  {| MapConfig.id := MapConfig.id c; MapConfig.type := MapConfig.type c;
     MapConfig.paint := MapConfig.paint c; MapConfig.filter := MapConfig.filter c;
     MapConfig.source := MapConfig.source c;
     MapConfig.source_layer := MapConfig.source_layer c;
     MapConfig.visibility := Some value |}.

(** [setPaintProperty] for the two colours of a band of a category, from
    the tables of the manager, on a layer configuration. *)
Definition repaint (poiType : string) (t : Z) (c : MapConfig.LayerConfig)
    : MapConfig.LayerConfig :=
  {| MapConfig.id := MapConfig.id c; MapConfig.type := MapConfig.type c;
     MapConfig.paint :=
       {| MapConfig.fill_color := Isochrone.getIsochroneColor poiType t;
          MapConfig.fill_opacity := MapConfig.fill_opacity (MapConfig.paint c);
          MapConfig.fill_outline_color := Isochrone.getIsochroneOutlineColor poiType t |};
     MapConfig.filter := MapConfig.filter c;
     MapConfig.source := MapConfig.source c;
     MapConfig.source_layer := MapConfig.source_layer c;
     MapConfig.visibility := MapConfig.visibility c |}.

(** The value of the layout property for a flag. *)
Definition visibility_of (visible : bool) : string :=
  if visible then "visible" else "none".

(** ** The cache and the states of a manager *)

(** The statistics of a descriptor: the number of its features, and for
    every configured time band the number of features of that band. *)
Definition statisticsOf (data : FeatureCollection) : Statistics :=
  {| total := length (features data);
     byTime :=
       foldl (λ byTime t,
                <[t := length (List.filter
                         (λ f, bool_decide (or_else (time f) (duration f) = Some t))
                         (features data))]> byTime)
             ∅ ISOCHRONE_CONFIG.timeIntervals |}.

(** Every entry of the cache was made by [createMockIsochroneData] under the
    key of its category and location. *)
Definition cache_wf (m : IsochroneManager) : Prop :=
  ∀ k data, isochroneData m !! k = Some data →
    ∃ poiType loc, k = cacheKey poiType loc ∧ data = createMockIsochroneData poiType loc.

(** The states of a manager: a new manager, and what the public methods
    make of a state; an [async] method counts with each of its parts. *)
Inductive reachable : IsochroneManager → Prop :=
| reachable_new mp :
    reachable (new mp)
| reachable_setCurrentLocation m loc :
    reachable m → reachable (setCurrentLocation m loc)
| reachable_call R m loc poiType :
    reachable m → reachable (loadIsochrones_call R m loc poiType).1
| reachable_settled s m loc poiType :
    reachable m → reachable (loadIsochrones_settled s m loc poiType).1
| reachable_add R m poiType data :
    reachable m → reachable (addIsochroneLayers R m poiType data)
| reachable_remove m poiType :
    reachable m → reachable (removeIsochroneLayers m poiType)
| reachable_toggle m poiType visible :
    reachable m → reachable (toggleIsochroneLayers m poiType visible)
| reachable_colors m poiType :
    reachable m → reachable (updateIsochroneColors m poiType)
| reachable_clearAll m :
    reachable m → reachable (clearAll m).

(** The source that [initializePMTilesSource] registers. *)
Definition sourceSpecFor (R : Renderer) (poiType : string) (loc : Location) : SourceSpec :=
  {| source_type := "vector";
     url := "pmtiles://" +:+ (origin R +:+ "/pmtiles/" +:+ getPMTilesFileName poiType loc) |}.

(** The five ways in which an awaited call of [loadIsochrones] ends. *)
Inductive LoadCase (R : Renderer) (m : IsochroneManager) (loc : Location)
    (poiType : string) : Prop :=
| Hit data
    (_ : isochroneData m !! cacheKey poiType loc = Some data)
| AlreadyRegistered spec
    (_ : isochroneData m !! cacheKey poiType loc = None)
    (_ : sources (map m) !! sourceId poiType loc = Some spec)
| RegistrationRejected
    (_ : isochroneData m !! cacheKey poiType loc = None)
    (_ : sources (map m) !! sourceId poiType loc = None)
    (_ : rejects_source R (sourceId poiType loc) = true)
| Loaded
    (_ : isochroneData m !! cacheKey poiType loc = None)
    (_ : sources (map m) !! sourceId poiType loc = None)
    (_ : rejects_source R (sourceId poiType loc) = false)
    (_ : settlement R (sourceId poiType loc) = Fulfilled)
| TimedOut
    (_ : isochroneData m !! cacheKey poiType loc = None)
    (_ : sources (map m) !! sourceId poiType loc = None)
    (_ : rejects_source R (sourceId poiType loc) = false)
    (_ : settlement R (sourceId poiType loc) = Rejected).

(** ** The page *)

(** The ids of the button of a band and of the count of a category. *)
Definition buttonId (poiType : string) (t : Z) : string :=
  poiType +:+ "-" +:+ pretty t.

Definition countId (poiType : string) : string := poiType +:+ "-count".

(** A button with the class of full opacity in the place of the three
    opacity classes. *)
Definition highlighted (button : Main.Element) : Main.Element :=
  {| Main.classList :=
       {["bg-opacity-60"]}
       ∪ (Main.classList button
          ∖ {[ "bg-opacity-40"; "bg-opacity-50"; "bg-opacity-60" ]});
     Main.textContent := Main.textContent button |}.

Definition with_text (text : string) (e : Main.Element) : Main.Element :=
  {| Main.classList := Main.classList e; Main.textContent := text |}.

(** ** Scenarios *)

Module Scenario.

(** Portland, Maine: the default centre of the map. *)
Definition portland : Location :=
  {| lat := Number 436591 4; lng := Number (-702568) 4 |}.

(** A renderer that accepts every call and reports every source as loaded
    two seconds after its registration. *)
Definition prompt : Renderer :=
  {| origin := "http://localhost:5173";
     rejects_source := λ _, false;
     rejects_layer := λ _, false;
     source_loaded_after := λ _, Some 2000%N |}.

(** As [prompt], but the sources of [bar] take twelve seconds. *)
Definition slow_bar : Renderer :=
  {| origin := "http://localhost:5173";
     rejects_source := λ _, false;
     rejects_layer := λ _, false;
     source_loaded_after := λ sid,
       if String.prefix "isochrones-bar-" sid then Some 12000%N else Some 2000%N |}.

(** As [prompt], but no source is ever reported as loaded. *)
Definition stalled : Renderer :=
  {| origin := "http://localhost:5173";
     rejects_source := λ _, false;
     rejects_layer := λ _, false;
     source_loaded_after := λ _, None |}.

(** As [prompt], but the layer of the ten-minute band of coffee is
    rejected. *)
Definition rejecting_ten : Renderer :=
  {| origin := "http://localhost:5173";
     rejects_source := λ _, false;
     rejects_layer := λ l, bool_decide (l = "coffee-isochrone-10");
     source_loaded_after := λ _, Some 2000%N |}.

(** A new manager on an empty map. *)
Definition fresh : IsochroneManager := new empty_map.

(** The manager after coffee was activated at [portland]. *)
Definition coffee_shown : IsochroneManager :=
  App.generateIsochrones prompt fresh portland "coffee".

(** The manager after coffee, bar and grocery were activated at
    [portland]. *)
Definition all_shown : IsochroneManager :=
  foldl (λ m poiType, App.generateIsochrones prompt m portland poiType)
        fresh ["coffee"; "bar"; "grocery"].

End Scenario.

(** * Properties *)

(** ** Strings of digits *)

Lemma chars_app (s1 s2 : string) : chars (s1 +:+ s2) = chars s1 ++ chars s2.
Proof. induction s1 as [|c s1 IH]; simpl; [done | by rewrite IH]. Qed.

Lemma chars_inj (s1 s2 : string) : chars s1 = chars s2 → s1 = s2.
Proof.
  intros H. rewrite <- (String.string_of_list_ascii_of_string s1),
    <- (String.string_of_list_ascii_of_string s2). by rewrite H.
Qed.

Lemma chars_length (s : string) : length (chars s) = String.length s.
Proof. induction s; simpl; congruence. Qed.

Lemma pretty_N_char_digit (x : N) : is_digit (pretty_N_char x).
Proof.
  unfold is_digit, pretty_N_char.
  repeat case_match; reflexivity.
Qed.

Lemma zero_digit : is_digit "0"%char.
Proof. reflexivity. Qed.

(** The printer of [N] puts digits, and at least one for a positive
    number, in front of its accumulator. *)
Lemma pretty_N_go_digits (x : N) (s : string) :
  ∃ d, chars (pretty_N_go x s) = d ++ chars s ∧ Forall is_digit d ∧ ((0 < x)%N → d ≠ []).
Proof.
  revert s. induction (N.lt_wf_0 x) as [x _ IH]. intros s.
  destruct (decide (x = 0%N)) as [-> | Hx].
  - exists []. rewrite pretty_N_go_0. split_and!; [done | constructor | lia].
  - rewrite pretty_N_go_step by lia.
    destruct (IH (x `div` 10)%N) with (s := String (pretty_N_char (x `mod` 10)) s)
      as (d & Hd & Hall & _).
    { apply N.div_lt; lia. }
    exists (d ++ [pretty_N_char (x `mod` 10)%N]). split_and!.
    + rewrite Hd. simpl. by rewrite <- app_assoc.
    + apply Forall_app. split; [done |].
      constructor; [apply pretty_N_char_digit | constructor].
    + intros _. by destruct d.
Qed.

Lemma pretty_N_digits (x : N) :
  Forall is_digit (chars (pretty x)) ∧ chars (pretty x) ≠ [].
Proof.
  unfold pretty, pretty_N. case_decide as Hx.
  - split; [| done]. constructor; [apply zero_digit | constructor].
  - destruct (pretty_N_go_digits x "") as (d & Hd & Hall & Hne).
    simpl in Hd. rewrite app_nil_r in Hd. rewrite Hd. split; [done |]. apply Hne. lia.
Qed.

(** An integer prints as an optional minus sign and a string of digits. *)
Lemma pretty_Z_shape (z : Z) :
  ∃ sign d, chars (pretty z) = sign ++ d ∧ (sign = [] ∧ 0 ≤ z ∨ sign = ["-"%char] ∧ z < 0)
            ∧ Forall is_digit d ∧ d ≠ [].
Proof.
  destruct z as [| p | p].
  - exists [], (chars "0"). split_and!; [done | left; done | | done].
    constructor; [apply zero_digit | constructor].
  - exists [], (chars (pretty (N.pos p))). destruct (pretty_N_digits (N.pos p)).
    split_and!; [done | left; split; [done | lia] | done | done].
  - exists ["-"%char], (chars (pretty (N.pos p))). destruct (pretty_N_digits (N.pos p)).
    split_and!; [done | right; split; [done | lia] | done | done].
Qed.

Lemma hyphen_not_digit : ¬ is_digit "-"%char.
Proof. discriminate. Qed.

(** A run of characters with a property, closed by one without it, is
    read off a list in one way only. *)
Lemma run_unique {A} (P : A → Prop) (l1 l2 : list A) x y r1 r2 :
  l1 ++ x :: r1 = l2 ++ y :: r2 →
  Forall P l1 → Forall P l2 → ¬ P x → ¬ P y →
  l1 = l2 ∧ x = y ∧ r1 = r2.
Proof.
  revert l2. induction l1 as [| a l1 IH]; intros [| b l2] Heq H1 H2 Hx Hy;
    simplify_eq/=.
  - done.
  - by inversion H2; subst.
  - by inversion H1; subst.
  - inversion H1; inversion H2; subst.
    destruct (IH l2) as (-> & -> & ->); done.
Qed.

(** A signed run of characters, closed by the sign character, is read off
    a list in one way only. *)
Lemma signed_run_unique {A} (P : A → Prop) (x : A) (s b r s' b' r' : list A) :
  ¬ P x → (s = [] ∨ s = [x]) → (s' = [] ∨ s' = [x]) →
  b ≠ [] → b' ≠ [] → Forall P b → Forall P b' →
  s ++ b ++ x :: r = s' ++ b' ++ x :: r' →
  s = s' ∧ b = b' ∧ r = r'.
Proof.
  intros Hx Hs Hs' Hb Hb' HP HP' Heq.
  destruct b as [| c b]; [done |]. destruct b' as [| c' b']; [done |].
  assert (P c ∧ P c') as [Hc Hc'] by (by inversion HP; inversion HP').
  destruct Hs as [-> | ->], Hs' as [-> | ->]; simpl in Heq.
  - apply (run_unique P (c :: b) (c' :: b')) in Heq as (? & _ & ?); done.
  - injection Heq as -> _. done.
  - injection Heq as <- _. done.
  - apply (f_equal tail) in Heq. simpl in Heq.
    apply (run_unique P (c :: b) (c' :: b')) in Heq as (? & _ & ?); done.
Qed.

(** What [Math.round] returns prints as an optional minus sign and a run
    of characters that are not hyphens, and is read off what is printed. *)
Lemma integral_to_string_shape (n : integral) :
  ∃ sign body, chars (integral_to_string n) = sign ++ body
               ∧ (sign = [] ∨ sign = ["-"%char])
               ∧ Forall (λ c, c ≠ "-"%char) body ∧ body ≠ []
               ∧ (Forall is_digit body ↔ ∃ z, n = Integer z).
Proof.
  destruct n as [z | [|] |].
  - destruct (pretty_Z_shape z) as (sign & d & E & Hs & Hd & Hn).
    exists sign, d. split_and!; [done | tauto | | done | naive_solver].
    eapply Forall_impl; [exact Hd |]. intros c Hc ->. by apply hyphen_not_digit.
  - exists ["-"%char], (chars "Infinity"). split_and!; [done | by right | | done |].
    + repeat constructor; discriminate.
    + split; [| by intros [z ?]]. intros H. by inversion H.
  - exists [], (chars "Infinity"). split_and!; [done | by left | | done |].
    + repeat constructor; discriminate.
    + split; [| by intros [z ?]]. intros H. by inversion H.
  - exists [], (chars "NaN"). split_and!; [done | by left | | done |].
    + repeat constructor; discriminate.
    + split; [| by intros [z ?]]. intros H. by inversion H.
Qed.

Lemma integral_to_string_inj (n n' : integral) :
  integral_to_string n = integral_to_string n' → n = n'.
Proof.
  intros H.
  destruct (integral_to_string_shape n) as (s & b & E & Hs & Hb & Hn & Hd).
  destruct (integral_to_string_shape n') as (s' & b' & E' & Hs' & Hb' & Hn' & Hd').
  assert (s = s' ∧ b = b') as [-> ->].
  { apply (f_equal chars) in H. rewrite E, E' in H.
    apply (f_equal (λ l, l ++ ["-"%char])) in H. rewrite <- !app_assoc in H.
    apply (signed_run_unique (λ c, c ≠ "-"%char)) in H as (? & ? & _); auto. }
  assert ((∃ z, n = Integer z) ↔ (∃ z, n' = Integer z)) as Hiff.
  { by rewrite <- Hd, <- Hd'. }
  clear -H Hiff.
  destruct n as [z | neg |], n' as [z' | neg' |]; simpl in H.
  - apply (inj pretty) in H. by subst.
  - destruct Hiff as [[? ?] _]; [eauto | done].
  - destruct Hiff as [[? ?] _]; [eauto | done].
  - destruct Hiff as [_ [? ?]]; [eauto | done].
  - by destruct neg, neg'.
  - by destruct neg.
  - destruct Hiff as [_ [? ?]]; [eauto | done].
  - by destruct neg'.
  - done.
Qed.

(** Two results of [Math.round] joined by a hyphen are read off the string
    in one way. *)
Lemma hyphen_join_inj (a b a' b' : integral) :
  integral_to_string a +:+ "-" +:+ integral_to_string b
  = integral_to_string a' +:+ "-" +:+ integral_to_string b' →
  a = a' ∧ b = b'.
Proof.
  intros Heq. apply (f_equal chars) in Heq. rewrite !chars_app in Heq. simpl in Heq.
  destruct (integral_to_string_shape a) as (sa & da & Ea & Hsa & Hda & Hna & _).
  destruct (integral_to_string_shape a') as (sa' & da' & Ea' & Hsa' & Hda' & Hna' & _).
  rewrite Ea, Ea', <- !app_assoc in Heq.
  apply (signed_run_unique (λ c, c ≠ "-"%char)) in Heq as (Es & Ed & Eb); auto.
  split; apply integral_to_string_inj, chars_inj; congruence.
Qed.

(** ** Printed numbers *)

Lemma value_snoc (l : list ascii) (c : ascii) :
  value (l ++ [c]) = (10 * value l + digit_value c)%N.
Proof. unfold value. by rewrite foldl_app. Qed.

Lemma pretty_N_char_value (x : N) : (x < 10)%N → digit_value (pretty_N_char x) = x.
Proof.
  intros Hx.
  assert (x = 0 ∨ x = 1 ∨ x = 2 ∨ x = 3 ∨ x = 4 ∨ x = 5 ∨ x = 6 ∨ x = 7 ∨ x = 8 ∨ x = 9)%N
    as H by lia.
  repeat destruct H as [-> | H]; subst; reflexivity.
Qed.

(** The digits that the printer of [N] puts in front of its accumulator
    write the number, without a leading zero. *)
Lemma pretty_N_go_value (x : N) (s : string) :
  ∃ d, chars (pretty_N_go x s) = d ++ chars s ∧ value d = x
       ∧ (x = 0%N → d = [])
       ∧ ((0 < x)%N → (10 ^ N.of_nat (length d) ≤ 10 * x)%N).
Proof.
  revert s. induction (N.lt_wf_0 x) as [x _ IH]. intros s.
  destruct (decide (x = 0%N)) as [-> | Hx].
  - exists []. rewrite pretty_N_go_0. split_and!; [done | done | done |].
    intros H. by apply N.lt_irrefl in H.
  - rewrite pretty_N_go_step by lia.
    destruct (IH (x `div` 10)%N) with (s := String (pretty_N_char (x `mod` 10)) s)
      as (d & Hd & Hval & Hzero & Hlen).
    { apply N.div_lt; lia. }
    exists (d ++ [pretty_N_char (x `mod` 10)%N]). split_and!.
    + rewrite Hd. simpl. by rewrite <- app_assoc.
    + rewrite value_snoc, Hval, pretty_N_char_value by (apply N.mod_lt; lia).
      symmetry. apply N.div_mod. lia.
    + done.
    + intros _. rewrite length_app. simpl.
      replace (N.of_nat (length d + 1)) with (N.succ (N.of_nat (length d))) by lia.
      rewrite N.pow_succ_r'.
      assert (x = 10 * x `div` 10 + x `mod` 10)%N as Hdm by (apply N.div_mod; lia).
      destruct (decide (x `div` 10 = 0)%N) as [Hq | Hq].
      * rewrite (Hzero Hq). simpl. lia.
      * assert (10 ^ N.of_nat (length d) ≤ 10 * (x `div` 10))%N by (apply Hlen; lia).
        clear Hlen Hval Hzero Hd Hq.
        remember (10 ^ N.of_nat (length d))%N as w eqn:Ew.
        remember (x `div` 10)%N as q eqn:Eq. remember (x `mod` 10)%N as r eqn:Er.
        clear Ew Eq Er. lia.
Qed.

Lemma pretty_N_value (x : N) : value (chars (pretty x)) = x.
Proof.
  unfold pretty, pretty_N. case_decide as Hx; [by subst |].
  destruct (pretty_N_go_value x "") as (d & Hd & Hval & _).
  simpl in Hd. rewrite app_nil_r in Hd. by rewrite Hd.
Qed.

Lemma pretty_N_length (x : N) (k : nat) :
  (x < 10 ^ N.of_nat k)%N → (1 ≤ k)%nat → (length (chars (pretty x)) ≤ k)%nat.
Proof.
  intros Hx Hk. unfold pretty, pretty_N. case_decide as H0; [simpl; lia |].
  destruct (pretty_N_go_value x "") as (d & Hd & _ & _ & Hlen).
  simpl in Hd. rewrite app_nil_r in Hd. rewrite Hd.
  assert (10 ^ N.of_nat (length d) ≤ 10 * x)%N as Hle by (apply Hlen; lia).
  destruct (decide (length d ≤ k)%nat) as [| Hgt]; [done | exfalso].
  assert (10 ^ N.of_nat (S k) ≤ 10 ^ N.of_nat (length d))%N.
  { apply N.pow_le_mono_r; lia. }
  replace (N.of_nat (S k)) with (N.succ (N.of_nat k)) in * by lia.
  rewrite N.pow_succ_r' in *. lia.
Qed.

Lemma pretty_Z_nonneg (z : Z) : 0 ≤ z → pretty z = pretty (Z.to_N z).
Proof. intros Hz. destruct z; [done | done | lia]. Qed.

Lemma hyphen_not_numeric : ¬ numeric "-"%char.
Proof. intros [H | H]; discriminate H. Qed.

Lemma digits_numeric (l : list ascii) : Forall is_digit l → Forall numeric l.
Proof. intros H. eapply Forall_impl; [exact H |]. by left. Qed.

Lemma chars_zeros (n : nat) : chars (zeros n) = replicate n "0"%char.
Proof. induction n as [| n IH]; [done |]. simpl. f_equal. exact IH. Qed.

Lemma value_zeros (n : nat) (l : list ascii) : value (replicate n "0"%char ++ l) = value l.
Proof. induction n as [| n IH]; [done |]. simpl. exact IH. Qed.

Lemma number_to_string_chars (x : number) :
  chars (number_to_string x) =
    let '(m, k) := normalize (mantissa x) (places x) in
    sign_chars m ++ whole_chars m k ++ fraction_chars m k.
Proof.
  unfold number_to_string, sign_chars, whole_chars, fraction_chars, fraction_digits.
  destruct (normalize (mantissa x) (places x)) as [m k].
  rewrite !chars_app. f_equal; [by case_decide |]. f_equal. by destruct k.
Qed.

Lemma pow10_pos (k : nat) : 0 < pow10 k.
Proof. unfold pow10. apply Z.pow_pos_nonneg; lia. Qed.

Lemma whole_chars_digits (m : Z) (k : nat) :
  Forall is_digit (whole_chars m k) ∧ whole_chars m k ≠ [].
Proof.
  unfold whole_chars. pose proof (pow10_pos k).
  rewrite pretty_Z_nonneg by (apply Z.div_pos; lia). apply pretty_N_digits.
Qed.

Lemma fraction_digits_spec (m : Z) (k : nat) :
  (1 ≤ k)%nat →
  Forall is_digit (fraction_digits m k)
  ∧ length (fraction_digits m k) = k
  ∧ Z.of_N (value (fraction_digits m k)) = Z.abs m `mod` pow10 k.
Proof.
  intros Hk. unfold fraction_digits, zero_pad. pose proof (pow10_pos k) as Hp.
  pose proof (Z.mod_pos_bound (Z.abs m) (pow10 k) Hp) as Hr.
  rewrite pretty_Z_nonneg by lia. rewrite chars_app, chars_zeros.
  set (r := Z.to_N (Z.abs m `mod` pow10 k)).
  assert (length (chars (pretty r)) ≤ k)%nat as Hlen.
  { apply pretty_N_length; [| done]. unfold r.
    apply N2Z.inj_lt. rewrite N2Z.inj_pow, Z2N.id, nat_N_Z by lia. apply Hr. }
  split_and!.
  - apply Forall_app. split; [| apply pretty_N_digits].
    apply Forall_replicate. reflexivity.
  - rewrite length_app, length_replicate, <- chars_length. lia.
  - rewrite value_zeros, pretty_N_value. unfold r. lia.
Qed.

Lemma fraction_chars_numeric (m : Z) (k : nat) : Forall numeric (fraction_chars m k).
Proof.
  unfold fraction_chars. destruct k as [| k]; [constructor |].
  constructor; [by right |]. apply digits_numeric, fraction_digits_spec. lia.
Qed.
          
Lemma dot_not_digit : ¬ is_digit "."%char.
Proof. discriminate. Qed.

(** A normalized mantissa and its number of places are read off the
    printed number. *)
Lemma printed_parts_inj (m m' : Z) (k k' : nat) :
  sign_chars m ++ whole_chars m k ++ fraction_chars m k
  = sign_chars m' ++ whole_chars m' k' ++ fraction_chars m' k' →
  m = m' ∧ k = k'.
Proof.
  intros Heq.
  destruct (whole_chars_digits m k) as [Hw Hwn].
  destruct (whole_chars_digits m' k') as [Hw' Hwn'].
  assert (∀ z, sign_chars z = [] ∨ sign_chars z = ["-"%char]) as Hsign.
  { intros z. unfold sign_chars. case_decide; eauto. }
  (* the sign, and the rest *)
  apply (f_equal (λ l, l ++ ["-"%char])) in Heq. rewrite <- !app_assoc in Heq.
  rewrite !(app_assoc (whole_chars _ _)) in Heq.
  apply (signed_run_unique numeric) in Heq as (Hs & Hbody & _);
    [| apply hyphen_not_numeric | apply Hsign | apply Hsign
     | by destruct (whole_chars m k) | by destruct (whole_chars m' k')
     | apply Forall_app; auto using digits_numeric, fraction_chars_numeric
     | apply Forall_app; auto using digits_numeric, fraction_chars_numeric ].
  (* the whole part, and the fraction *)
  assert (whole_chars m k = whole_chars m' k' ∧ fraction_chars m k = fraction_chars m' k')
    as [Hi Hf].
  { apply (f_equal (λ l, l ++ ["."%char])) in Hbody. rewrite <- !app_assoc in Hbody.
    unfold fraction_chars in *. destruct k as [| k], k' as [| k']; simpl in Hbody.
    - apply (run_unique is_digit) in Hbody as (? & _ & _); auto using dot_not_digit.
    - apply (run_unique is_digit) in Hbody as (_ & _ & Hr); auto using dot_not_digit.
      by destruct (fraction_digits m' (S k')).
    - apply (run_unique is_digit) in Hbody as (_ & _ & Hr); auto using dot_not_digit.
      by destruct (fraction_digits m (S k)).
    - apply (run_unique is_digit) in Hbody as (? & _ & Hr); auto using dot_not_digit.
      apply app_inv_tail in Hr. by rewrite Hr. }
  (* the numbers that the parts write *)
  pose proof (pow10_pos k) as Hp. pose proof (pow10_pos k') as Hp'.
  assert (Z.abs m `div` pow10 k = Z.abs m' `div` pow10 k') as Hq.
  { unfold whole_chars in Hi. apply chars_inj in Hi. by apply (inj pretty) in Hi. }
  assert (k = k' ∧ Z.abs m `mod` pow10 k = Z.abs m' `mod` pow10 k') as [<- Hr].
  { unfold fraction_chars in Hf. destruct k as [| k], k' as [| k']; try done.
    - split; [done |]. unfold pow10. simpl. by rewrite !Z.mod_1_r.
    - injection Hf as Hf.
      destruct (fraction_digits_spec m (S k)) as (_ & Hl & Hv); [lia |].
      destruct (fraction_digits_spec m' (S k')) as (_ & Hl' & Hv'); [lia |].
      assert (S k = S k') as Hk by congruence. split; [done |].
      rewrite <- Hv, <- Hv', Hf. done. }
  split; [| done].
  assert (Z.abs m = Z.abs m') as Ha.
  { rewrite (Z.div_mod (Z.abs m) (pow10 k)), (Z.div_mod (Z.abs m') (pow10 k)) by lia.
    by rewrite Hq, Hr. }
  unfold sign_chars in Hs. repeat case_decide; try done; lia.
Qed.

Lemma normalize_value (m : Z) (k : nat) :
  let '(m', k') := normalize m k in m * pow10 k' = m' * pow10 k.
Proof.
  revert m. induction k as [| k IH]; intros m; simpl; [done |].
  case_decide as Hm; [| done].
  specialize (IH (m `div` 10)). destruct (normalize (m `div` 10) k) as [m' k'].
  assert (m = 10 * (m `div` 10)) as Hdiv.
  { rewrite (Z.div_mod m 10) at 1 by lia. lia. }
  assert (pow10 (S k) = 10 * pow10 k) as ->.
  { unfold pow10. rewrite Nat2Z.inj_succ, Z.pow_succ_r by lia. done. }
  rewrite Hdiv. remember (m `div` 10) as q. clear Heqq Hdiv Hm. lia.
Qed.

(** Numbers that print alike have the same value and round alike: the key
    of the cache is at least as fine as the id of the source. *)
Lemma number_to_string_round (x y : number) :
  number_to_string x = number_to_string y →
  round_times_1000 x = round_times_1000 y.
Proof.
  intros H. apply (f_equal chars) in H. rewrite !number_to_string_chars in H.
  unfold round_times_1000, to_binary64.
  destruct (normalize (mantissa x) (places x)) as [m k].
  destruct (normalize (mantissa y) (places y)) as [m' k'].
  by apply printed_parts_inj in H as [<- <-].
Qed.

(** A printed number is an optional minus sign and a run of numeric
    characters. *)
Lemma number_to_string_shape (x : number) :
  ∃ sign body, chars (number_to_string x) = sign ++ body
               ∧ (sign = [] ∨ sign = ["-"%char])
               ∧ Forall numeric body ∧ body ≠ [].
Proof.
  rewrite number_to_string_chars.
  destruct (normalize (mantissa x) (places x)) as [m k].
  destruct (whole_chars_digits m k) as [Hw Hwn].
  exists (sign_chars m), (whole_chars m k ++ fraction_chars m k). split_and!.
  - done.
  - unfold sign_chars. case_decide; eauto.
  - apply Forall_app. auto using digits_numeric, fraction_chars_numeric.
  - by destruct (whole_chars m k).
Qed.

(** ** Keys and ids *)

Lemma append_cancel_r (p p' s : string) : p +:+ s = p' +:+ s → p = p'.
Proof.
  intros H. apply (f_equal chars) in H. rewrite !chars_app in H.
  apply app_inv_tail in H. by apply chars_inj.
Qed.

Lemma sourceId_quantize (poiType : string) (loc1 loc2 : Location) :
  sourceId poiType loc1 = sourceId poiType loc2 ↔ quantize loc1 = quantize loc2.
Proof.
  unfold sourceId, quantize. split.
  - intros H. do 3 apply (inj (String.append _)) in H.
    apply hyphen_join_inj in H as [-> ->]. done.
  - by intros [= -> ->].
Qed.

(** In the area that [getPMTilesFileName] names, a coordinate that is
    written with three decimals is its own quantization. *)
Lemma round_times_1000_box (n : Z) :
  43600 ≤ n ≤ 43700 ∨ -70250 ≤ n ≤ -70200 →
  round_times_1000 (Number n 3) = Integer n.
Proof.
  assert (Forall (λ n, round_times_1000 (Number n 3) = Integer n)
            (seqZ 43600 101 ++ seqZ (-70250) 51)) as H.
  { apply (bool_decide_unpack _). vm_compute. exact I. }
  intros Hn. rewrite Forall_forall in H. apply H.
  rewrite elem_of_app, !elem_of_seqZ. lia.
Qed.

Lemma sourceId_category (poiType poiType' : string) (loc : Location) :
  sourceId poiType loc = sourceId poiType' loc → poiType = poiType'.
Proof.
  unfold sourceId. intros H. apply (inj (String.append _)) in H.
  by apply append_cancel_r in H.
Qed.

Lemma cacheKey_category (poiType poiType' : string) (loc : Location) :
  cacheKey poiType loc = cacheKey poiType' loc → poiType = poiType'.
Proof. unfold cacheKey. apply append_cancel_r. Qed.

(** The key of the cache is read off in one way, and it is at least as fine
    as the id of the source. *)
Lemma cacheKey_numbers (poiType : string) (loc1 loc2 : Location) :
  cacheKey poiType loc1 = cacheKey poiType loc2 →
  number_to_string (lat loc1) = number_to_string (lat loc2)
  ∧ number_to_string (lng loc1) = number_to_string (lng loc2).
Proof.
  unfold cacheKey. intros H. do 2 apply (inj (String.append _)) in H.
  apply (f_equal chars) in H. rewrite !chars_app in H. simpl in H.
  destruct (number_to_string_shape (lat loc1)) as (s1 & b1 & E1 & Hs1 & Hb1 & Hn1).
  destruct (number_to_string_shape (lat loc2)) as (s2 & b2 & E2 & Hs2 & Hb2 & Hn2).
  rewrite E1, E2, <- !app_assoc in H.
  apply (signed_run_unique numeric) in H as (-> & -> & Hr);
    auto using hyphen_not_numeric.
  split; apply chars_inj; congruence.
Qed.

Lemma cacheKey_sourceId (poiType : string) (loc1 loc2 : Location) :
  cacheKey poiType loc1 = cacheKey poiType loc2 →
  sourceId poiType loc1 = sourceId poiType loc2.
Proof.
  intros [Hlat Hlng]%cacheKey_numbers. apply sourceId_quantize. unfold quantize.
  by rewrite (number_to_string_round _ _ Hlat), (number_to_string_round _ _ Hlng).
Qed.

(** No key of the cache ends in the word that stands for a missing
    coordinate. *)
Lemma cacheKey_not_undefined (poiType poiType' : string) (loc : Location) :
  cacheKey poiType loc ≠ poiType' +:+ "-undefined-undefined".
Proof.
  unfold cacheKey. intros H.
  apply (f_equal (λ s, rev (chars s))) in H. rewrite !chars_app, !rev_app_distr in H.
  destruct (number_to_string_shape (lng loc)) as (s & b & E & _ & Hb & Hn).
  rewrite E, rev_app_distr in H.
  apply Forall_rev in Hb. destruct (rev b) as [| c b'] eqn:Eb.
  { apply (f_equal (@rev ascii)) in Eb. rewrite rev_involutive in Eb. done. }
  simpl in H. injection H as -> _. inversion Hb as [| ? ? [Hd | Hd] _]; discriminate Hd.
Qed.

Lemma append_rev_chars (p s : string) :
  rev (chars (p +:+ s)) = rev (chars s) ++ rev (chars p).
Proof. by rewrite chars_app, rev_app_distr. Qed.

Lemma band_cases (t : Z) :
  t ∈ ISOCHRONE_CONFIG.timeIntervals → t = 5 ∨ t = 10 ∨ t = 15.
Proof.
  unfold ISOCHRONE_CONFIG.timeIntervals.
  rewrite !elem_of_cons, elem_of_nil. tauto.
Qed.

Lemma mem_bands_5 : 5 ∈ ISOCHRONE_CONFIG.timeIntervals.
Proof. unfold ISOCHRONE_CONFIG.timeIntervals. rewrite !elem_of_cons. tauto. Qed.
Lemma mem_bands_10 : 10 ∈ ISOCHRONE_CONFIG.timeIntervals.
Proof. unfold ISOCHRONE_CONFIG.timeIntervals. rewrite !elem_of_cons. tauto. Qed.
Lemma mem_bands_15 : 15 ∈ ISOCHRONE_CONFIG.timeIntervals.
Proof. unfold ISOCHRONE_CONFIG.timeIntervals. rewrite !elem_of_cons. tauto. Qed.

(** Over the configured time bands a layer id names one category and one
    band. *)
Lemma layerId_inj (poiType poiType' : string) (t t' : Z) :
  t ∈ ISOCHRONE_CONFIG.timeIntervals → t' ∈ ISOCHRONE_CONFIG.timeIntervals →
  layerId poiType t = layerId poiType' t' → poiType = poiType' ∧ t = t'.
Proof.
  unfold ISOCHRONE_CONFIG.timeIntervals, layerId. intros Ht Ht' H.
  apply (f_equal (λ s, rev (chars s))) in H. simpl in H.
  rewrite !append_rev_chars in H.
  apply band_cases in Ht as Hc. apply band_cases in Ht' as Hc'.
  remember (rev (chars poiType)) as r eqn:Er.
  remember (rev (chars poiType')) as r' eqn:Er'.
  destruct Hc as [-> | [-> | ->]], Hc' as [-> | [-> | ->]];
    vm_compute in H; try discriminate H; split; try done;
    apply chars_inj; rewrite <- (rev_involutive (chars poiType)),
      <- (rev_involutive (chars poiType')); congruence.
Qed.

(** ** Styling *)

Lemma colors_unknown (poiType : string) :
  ¬ known_category poiType →
  MapConfig.colors !! poiType = None ∧ MapConfig.outline_colors !! poiType = None.
Proof.
  unfold known_category, MapConfig.colors, MapConfig.outline_colors. intros H.
  rewrite !lookup_insert_ne, !lookup_singleton_ne by naive_solver. done.
Qed.

Lemma styled_known (poiType : string) (t : Z) : styled poiType t → known_category poiType.
Proof.
  intros [c Hc]. destruct (decide (known_category poiType)) as [| Hn]; [done |].
  apply colors_unknown in Hn as [Hn _]. by rewrite Hn in Hc.
Qed.

Lemma known_styled (poiType : string) (t : Z) :
  known_category poiType → t ∈ ISOCHRONE_CONFIG.timeIntervals → styled poiType t.
Proof.
  intros [-> | [-> | ->]] Ht; apply band_cases in Ht as [-> | [-> | ->]];
    vm_compute; eauto.
Qed.


(** The method of the manager and the function of map-config.js hold the
    same tables. *)
Lemma manager_styling_agrees (poiType : string) (t : Z) :
  Isochrone.getIsochroneColor poiType t = MapConfig.getIsochroneColor poiType t
  ∧ Isochrone.getIsochroneOutlineColor poiType t
    = MapConfig.getIsochroneOutlineColor poiType t.
Proof. done. Qed.

(** The outline colour does not depend on the band. *)
Lemma outline_ignores_band (poiType : string) (t t' : Z) :
  MapConfig.getIsochroneOutlineColor poiType t = MapConfig.getIsochroneOutlineColor poiType t'.
Proof. done. Qed.

(** ** Layers *)

Lemma elem_of_layerIds (poiType l : string) :
  l ∈ layerIds poiType ↔ ∃ t, t ∈ ISOCHRONE_CONFIG.timeIntervals ∧ l = layerId poiType t.
Proof.
  unfold layerIds. rewrite elem_of_list_to_set, list_elem_of_fmap. naive_solver.
Qed.

Section AddLayers.
Context (R : Renderer) (poiType pmtilesSource : string) (loc : Location).

Abbreviation step := (addIsochroneLayer R poiType pmtilesSource).

Lemma addIsochroneLayer_no_location (m : IsochroneManager) (t : Z) :
  currentLocation m = None → step m t = None.
Proof. unfold addIsochroneLayer. by intros ->. Qed.

(** One band: a rejected layer leaves the manager as it is, an accepted one
    is in the map and in [activeLayers] afterwards. *)
Lemma addIsochroneLayer_spec (m : IsochroneManager) (t : Z) :
  currentLocation m = Some loc →
  ∃ m', step m t = Some m'
    ∧ currentLocation m' = Some loc
    ∧ pmtilesSources m' = pmtilesSources m
    ∧ isochroneData m' = isochroneData m
    ∧ sources (map m') = sources (map m)
    ∧ if rejects_layer R (layerId poiType t)
      then m' = m
      else activeLayers m' = {[layerId poiType t]} ∪ activeLayers m
           ∧ layers (map m') =
               match layers (map m) !! layerId poiType t with
               | Some _ => layers (map m)
               | None => <[layerId poiType t := layerConfigFor poiType pmtilesSource loc t]>
                           (layers (map m))
               end.
Proof.
  intros Hloc. unfold addIsochroneLayer, addLayer. rewrite Hloc. simpl.
  fold (layerId poiType t).
  destruct (rejects_layer R (layerId poiType t)); [by eexists |].
  destruct (layers (map m) !! layerId poiType t); eexists; split_and!; done.
Qed.

(** The loop over a list of bands, from a manager with a location. *)
Lemma add_loop_spec (ts : list Z) (m : IsochroneManager) :
  currentLocation m = Some loc →
  let m' := forEach_try step ts m in
  currentLocation m' = Some loc
  ∧ pmtilesSources m' = pmtilesSources m
  ∧ isochroneData m' = isochroneData m
  ∧ sources (map m') = sources (map m)
  ∧ (∀ l, l ∈ activeLayers m' ↔
          l ∈ activeLayers m
          ∨ ∃ t, t ∈ ts ∧ l = layerId poiType t ∧ rejects_layer R l = false)
  ∧ (∀ l c, layers (map m) !! l = Some c → layers (map m') !! l = Some c)
  ∧ (∀ l, layers (map m) !! l = None →
          layers (map m') !! l = None
          ∨ ∃ t, t ∈ ts ∧ l = layerId poiType t ∧ rejects_layer R l = false
                 ∧ layers (map m') !! l = Some (layerConfigFor poiType pmtilesSource loc t))
  ∧ (∀ t, t ∈ ts → rejects_layer R (layerId poiType t) = false →
          is_Some (layers (map m') !! layerId poiType t)).
Proof.
  revert m. induction ts as [| t ts IH]; intros m Hloc; simpl.
  - split_and!; try done.
    + intros l. split; [by left |]. intros [? | (t & Ht & _)]; [done |].
      by apply elem_of_nil in Ht.
    + by left.
    + intros t Ht. by apply elem_of_nil in Ht.
  - destruct (addIsochroneLayer_spec m t Hloc) as (m1 & -> & Hloc1 & Hp & Hd & Hs & Hstep).
    destruct (IH m1 Hloc1) as (IHloc & IHp & IHd & IHs & IHact & IHkeep & IHnew & IHin).
    split_and!; try congruence.
    + intros l. rewrite IHact.
      destruct (rejects_layer R (layerId poiType t)) eqn:Hrej.
      * subst m1. split.
        -- intros [? | (t' & Ht' & ? & ?)]; [by left | right].
           exists t'. rewrite elem_of_cons. eauto.
        -- intros [? | (t' & Ht' & -> & Hacc)]; [by left |].
           apply elem_of_cons in Ht' as [-> | Ht']; [congruence |]. right. eauto.
      * destruct Hstep as [Hact _]. rewrite Hact. split.
        -- intros [[->%elem_of_singleton | ?]%elem_of_union | (t' & Ht' & ? & ?)].
           ++ right. exists t. rewrite elem_of_cons. eauto.
           ++ by left.
           ++ right. exists t'. rewrite elem_of_cons. eauto.
        -- intros [? | (t' & Ht' & -> & Hacc)]; [left; set_solver |].
           apply elem_of_cons in Ht' as [-> | Ht']; [left; set_solver | right; eauto].
    + intros l c Hl. apply IHkeep.
      destruct (rejects_layer R (layerId poiType t)); [by subst m1 |].
      destruct Hstep as [_ ->]. destruct (layers (map m) !! layerId poiType t) eqn:E; [done |].
      rewrite lookup_insert_ne; [done | congruence].
    + intros l Hl.
      destruct (rejects_layer R (layerId poiType t)) eqn:Hrej.
      * subst m1. destruct (IHnew l Hl) as [? | (t' & Ht' & ? & ? & ?)]; [by left | right].
        exists t'. rewrite elem_of_cons. eauto.
      * destruct Hstep as [_ Hlay].
        destruct (decide (l = layerId poiType t)) as [-> | Hne].
        -- right. exists t. rewrite elem_of_cons. split_and!; eauto.
           apply IHkeep. rewrite Hlay, Hl. apply lookup_insert_eq.
        -- assert (layers (map m1) !! l = None) as Hl1.
           { rewrite Hlay. destruct (layers (map m) !! layerId poiType t); [done |].
             by rewrite lookup_insert_ne. }
           destruct (IHnew l Hl1) as [? | (t' & Ht' & ? & ? & ?)]; [by left | right].
           exists t'. rewrite elem_of_cons. eauto.
    + intros t' Ht' Hacc. apply elem_of_cons in Ht' as [-> | Ht']; [| by apply IHin].
      rewrite Hacc in Hstep. destruct Hstep as [_ Hlay].
      assert (is_Some (layers (map m1) !! layerId poiType t)) as [c Hc].
      { rewrite Hlay. destruct (layers (map m) !! layerId poiType t) eqn:E; [by eexists |].
        rewrite lookup_insert_eq. by eexists. }
      exists c. by apply IHkeep.
Qed.

End AddLayers.

(** The loop of [removeIsochroneLayers] over a list of bands. *)
Lemma remove_loop_spec (poiType : string) (ts : list Z) (m : IsochroneManager) :
  let m' := foldl (removeIsochroneLayer poiType) m ts in
  currentLocation m' = currentLocation m
  ∧ pmtilesSources m' = pmtilesSources m
  ∧ isochroneData m' = isochroneData m
  ∧ sources (map m') = sources (map m)
  ∧ (∀ l, layers (map m') !! l =
          if decide (l ∈ layerId poiType <$> ts) then None else layers (map m) !! l)
  ∧ (∀ l, l ∈ activeLayers m' ↔
          l ∈ activeLayers m
          ∧ ¬ (l ∈ layerId poiType <$> ts ∧ is_Some (layers (map m) !! l))).
Proof.
  revert m. induction ts as [| t ts IH]; intros m; simpl.
  - split_and!; try done.
    intros l. split; [| tauto]. intros Hl. split; [done |].
    intros [H _]. by apply elem_of_nil in H.
  - destruct (IH (removeIsochroneLayer poiType m t))
      as (IHloc & IHp & IHd & IHs & IHlay & IHact).
    assert (∀ l, layers (map (removeIsochroneLayer poiType m t)) !! l =
                 if decide (l = layerId poiType t) then None else layers (map m) !! l)
      as Hlay1.
    { intros l. unfold removeIsochroneLayer, getLayer.
      destruct (layers (map m) !! layerId poiType t) eqn:E; simpl.
      - case_decide as Hl; [subst; apply lookup_delete_eq | by apply lookup_delete_ne].
      - case_decide as Hl; [by subst | done]. }
    assert (∀ l, l ∈ activeLayers (removeIsochroneLayer poiType m t) ↔
                 l ∈ activeLayers m
                 ∧ ¬ (l = layerId poiType t ∧ is_Some (layers (map m) !! l))) as Hact1.
    { intros l. unfold removeIsochroneLayer, getLayer.
      destruct (layers (map m) !! layerId poiType t) eqn:E; simpl.
      - rewrite elem_of_difference, elem_of_singleton. split.
        + intros [? Hne]. split; [done |]. by intros [? _].
        + intros [? Hne]. split; [done |]. intros ->. apply Hne. split; [done |].
          by rewrite E.
      - split; [| tauto]. intros ?. split; [done |]. intros [-> [c Hc]]. congruence. }
    split_and!.
    + rewrite IHloc. unfold removeIsochroneLayer. by case_match.
    + rewrite IHp. unfold removeIsochroneLayer. by case_match.
    + rewrite IHd. unfold removeIsochroneLayer. by case_match.
    + rewrite IHs. unfold removeIsochroneLayer. by case_match.
    + intros l. rewrite IHlay, Hlay1.
      repeat case_decide; try done; exfalso;
        rewrite ?elem_of_cons in *; naive_solver.
    + intros l. rewrite IHact, Hact1, Hlay1. split.
      * intros [[Hl Hn1] Hn2]. split; [done |].
        intros [[-> | Ht']%elem_of_cons Hsome]; [by apply Hn1 |].
        apply Hn2. split; [done |].
        case_decide as Hd; [| done]. destruct Hn1. by rewrite <- Hd.
      * intros [Hl Hn]. split_and!; [done | |].
        -- intros [-> ?]. apply Hn. split; [| done]. apply elem_of_cons. by left.
        -- intros [Ht' Hsome]. case_decide as Hd; [by destruct Hsome |].
           apply Hn. split; [| done]. apply elem_of_cons. by right.
Qed.

Lemma removeIsochroneLayers_spec (m : IsochroneManager) (poiType : string) :
  let m' := removeIsochroneLayers m poiType in
  (∀ l, layers (map m') !! l =
        if decide (l ∈ layerIds poiType) then None else layers (map m) !! l)
  ∧ (∀ l, l ∈ activeLayers m' ↔
          l ∈ activeLayers m
          ∧ ¬ (l ∈ layerIds poiType ∧ is_Some (layers (map m) !! l))).
Proof.
  destruct (remove_loop_spec poiType ISOCHRONE_CONFIG.timeIntervals m)
    as (_ & _ & _ & _ & Hlay & Hact).
  assert (∀ l, l ∈ layerId poiType <$> ISOCHRONE_CONFIG.timeIntervals
               ↔ l ∈ layerIds poiType) as Hids.
  { intros l. unfold layerIds. by rewrite elem_of_list_to_set. }
  split.
  - intros l. unfold removeIsochroneLayers. rewrite Hlay.
    case_decide as H1; case_decide as H2; try done.
    + destruct H2. by apply Hids.
    + destruct H1. by apply Hids.
  - intros l. unfold removeIsochroneLayers. by rewrite Hact, Hids.
Qed.

(** [addIsochroneLayers] only adds to [activeLayers], and what it adds are
    layer ids of the category that the map holds afterwards. *)
Lemma addIsochroneLayers_active (R : Renderer) (m : IsochroneManager)
    (poiType : string) (data : option FeatureCollection) :
  let m' := addIsochroneLayers R m poiType data in
  (∀ l, l ∈ activeLayers m → l ∈ activeLayers m')
  ∧ (∀ l, l ∈ activeLayers m' → l ∉ activeLayers m →
          l ∈ layerIds poiType ∧ is_Some (layers (map m') !! l))
  ∧ (∀ l c, layers (map m) !! l = Some c → layers (map m') !! l = Some c).
Proof.
  unfold addIsochroneLayers.
  destruct (pmtilesSources m !! poiType) as [src |]; [| by split_and!].
  destruct (currentLocation m) as [loc |] eqn:Hloc.
  - destruct (add_loop_spec R poiType src loc ISOCHRONE_CONFIG.timeIntervals m Hloc)
      as (_ & _ & _ & _ & Hact & Hkeep & _ & Hin).
    split_and!.
    + intros l Hl. apply Hact. by left.
    + intros l Hl Hn. apply Hact in Hl as [? | (t & Ht & -> & Hacc)]; [done |].
      split; [apply elem_of_layerIds; eauto | by apply Hin].
    + done.
  - simpl. rewrite addIsochroneLayer_no_location by done. by split_and!.
Qed.

Lemma addIsochroneLayers_frame (R : Renderer) (m : IsochroneManager)
    (poiType : string) (data : option FeatureCollection) :
  let m' := addIsochroneLayers R m poiType data in
  currentLocation m' = currentLocation m
  ∧ pmtilesSources m' = pmtilesSources m
  ∧ isochroneData m' = isochroneData m
  ∧ sources (map m') = sources (map m).
Proof.
  unfold addIsochroneLayers.
  destruct (pmtilesSources m !! poiType) as [src |]; [| done].
  destruct (currentLocation m) as [loc |] eqn:Hloc.
  - destruct (add_loop_spec R poiType src loc ISOCHRONE_CONFIG.timeIntervals m Hloc)
      as (H1 & H2 & H3 & H4 & _). by split_and!.
  - simpl. rewrite addIsochroneLayer_no_location by done. done.
Qed.

Lemma removeIsochroneLayers_frame (m : IsochroneManager) (poiType : string) :
  let m' := removeIsochroneLayers m poiType in
  currentLocation m' = currentLocation m
  ∧ pmtilesSources m' = pmtilesSources m
  ∧ isochroneData m' = isochroneData m
  ∧ sources (map m') = sources (map m).
Proof.
  destruct (remove_loop_spec poiType ISOCHRONE_CONFIG.timeIntervals m)
    as (H1 & H2 & H3 & H4 & _). done.
Qed.

Lemma removeIsochroneLayers_consistent (m : IsochroneManager) (poiType : string) :
  consistent m → consistent (removeIsochroneLayers m poiType).
Proof.
  intros Hcons l. destruct (removeIsochroneLayers_spec m poiType) as [Hlay Hact].
  intros [Hl Hn]%Hact. rewrite Hlay. case_decide as Hid.
  - destruct Hn. split; [done |]. by apply Hcons.
  - by apply Hcons.
Qed.

Lemma addIsochroneLayers_consistent (R : Renderer) (m : IsochroneManager)
    (poiType : string) (data : option FeatureCollection) :
  consistent m → consistent (addIsochroneLayers R m poiType data).
Proof.
  intros Hcons l Hl.
  destruct (addIsochroneLayers_active R m poiType data) as (_ & Hnew & Hkeep).
  destruct (decide (l ∈ activeLayers m)) as [Hin | Hout].
  - destruct (Hcons l Hin) as [c Hc]. exists c. by apply Hkeep.
  - by apply Hnew.
Qed.

(** On a manager whose active layers are layers of the map, adding the
    layers of a category and removing them again comes to removing them:
    the Active Layer Set is restored exactly when none of them was active. *)
Lemma add_then_remove_active (R : Renderer) (m : IsochroneManager)
    (poiType : string) (data : option FeatureCollection) :
  consistent m →
  activeLayers (removeIsochroneLayers (addIsochroneLayers R m poiType data) poiType)
  = activeLayers m ∖ layerIds poiType.
Proof.
  intros Hcons.
  destruct (addIsochroneLayers_active R m poiType data) as (Hmono & Hnew & Hkeep).
  destruct (removeIsochroneLayers_spec (addIsochroneLayers R m poiType data) poiType)
    as [_ Hact].
  apply set_eq. intros l. rewrite Hact, elem_of_difference. split.
  - intros [Hl Hn]. destruct (decide (l ∈ activeLayers m)) as [Hin | Hout].
    + split; [done |]. intros Hid. apply Hn. split; [done |].
      destruct (Hcons l Hin) as [c Hc]. exists c. by apply Hkeep.
    + destruct Hn. by apply Hnew.
  - intros [Hl Hid]. split; [by apply Hmono |]. by intros [? _].
Qed.

(** ** Loading *)

Lemma loadIsochrones_settled_cache (s : Settlement) (m : IsochroneManager)
    (loc : Location) (poiType : string) :
  let m' := (loadIsochrones_settled s m loc poiType).1 in
  map m' = map m ∧ activeLayers m' = activeLayers m
  ∧ currentLocation m' = currentLocation m ∧ pmtilesSources m' = pmtilesSources m
  ∧ isochroneData m' =
      match s with
      | Fulfilled => <[cacheKey poiType loc := createMockIsochroneData poiType loc]>
                       (isochroneData m)
      | Rejected => isochroneData m
      end.
Proof. by destruct s. Qed.

(** [loadIsochrones] up to its [await], case by case. *)
Lemma loadIsochrones_call_eq (R : Renderer) (m : IsochroneManager)
    (loc : Location) (poiType : string) :
  loadIsochrones_call R m loc poiType =
    match isochroneData m !! cacheKey poiType loc with
    | Some data => (setCurrentLocation m (Some loc), Done (Some data))
    | None =>
        match sources (map m) !! sourceId poiType loc with
        | Some _ =>
            ({| map := map m;
                isochroneData := <[cacheKey poiType loc := createMockIsochroneData poiType loc]>
                                   (isochroneData m);
                activeLayers := activeLayers m; currentLocation := Some loc;
                pmtilesSources := <[poiType := sourceId poiType loc]> (pmtilesSources m) |},
             Done (Some (createMockIsochroneData poiType loc)))
        | None =>
            if rejects_source R (sourceId poiType loc)
            then (setCurrentLocation m (Some loc), Done None)
            else
              ({| map := {| sources := <[sourceId poiType loc :=
                                           {| source_type := "vector";
                                              url := "pmtiles://" +:+
                                                (origin R +:+ "/pmtiles/" +:+
                                                 getPMTilesFileName poiType loc) |}]>
                                         (sources (map m));
                            layers := layers (map m) |};
                  isochroneData := isochroneData m;
                  activeLayers := activeLayers m; currentLocation := Some loc;
                  pmtilesSources := <[poiType := sourceId poiType loc]> (pmtilesSources m) |},
               Suspended (sourceId poiType loc))
        end
    end.
Proof.
  unfold loadIsochrones_call, initializePMTilesSource, getSource, addSource. simpl.
  destruct (isochroneData m !! cacheKey poiType loc); [done |].
  destruct (sources (map m) !! sourceId poiType loc); [done |].
  by destruct (rejects_source R (sourceId poiType loc)).
Qed.

Section Loading.
Context (R : Renderer) (m : IsochroneManager) (loc : Location) (poiType : string).

Abbreviation key := (cacheKey poiType loc).
Abbreviation sid := (sourceId poiType loc).

(** A hit of the cache: the descriptor is returned, and only the current
    location is written. *)
Lemma loadIsochrones_hit (data : FeatureCollection) :
  isochroneData m !! key = Some data →
  loadIsochrones_call R m loc poiType = (setCurrentLocation m (Some loc), Done (Some data))
  ∧ loadIsochrones R m loc poiType = (setCurrentLocation m (Some loc), Some data).
Proof.
  intros H. unfold loadIsochrones, loadIsochrones_call. simpl. by rewrite H.
Qed.

(** A miss with the source already registered: no registration, no wait. *)
Lemma loadIsochrones_registered (spec : SourceSpec) :
  isochroneData m !! key = None →
  sources (map m) !! sid = Some spec →
  loadIsochrones R m loc poiType =
    ({| map := map m;
        isochroneData := <[key := createMockIsochroneData poiType loc]> (isochroneData m);
        activeLayers := activeLayers m; currentLocation := Some loc;
        pmtilesSources := <[poiType := sid]> (pmtilesSources m) |},
     Some (createMockIsochroneData poiType loc)).
Proof.
  intros Hmiss Hsrc.
  unfold loadIsochrones, loadIsochrones_call, initializePMTilesSource, getSource. simpl.
  by rewrite Hmiss, Hsrc.
Qed.

(** A miss with a registration that the renderer rejects. *)
Lemma loadIsochrones_rejected :
  isochroneData m !! key = None →
  sources (map m) !! sid = None →
  rejects_source R sid = true →
  loadIsochrones R m loc poiType = (setCurrentLocation m (Some loc), None).
Proof.
  intros Hmiss Hsrc Hrej.
  unfold loadIsochrones, loadIsochrones_call, initializePMTilesSource, getSource, addSource.
  simpl. by rewrite Hmiss, Hsrc, Hrej.
Qed.

(** A miss with a fresh registration: the call is suspended on the source. *)
Lemma loadIsochrones_call_suspended :
  isochroneData m !! key = None →
  sources (map m) !! sid = None →
  rejects_source R sid = false →
  loadIsochrones_call R m loc poiType =
    ({| map := {| sources := <[sid := sourceSpecFor R poiType loc]> (sources (map m));
                  layers := layers (map m) |};
        isochroneData := isochroneData m;
        activeLayers := activeLayers m; currentLocation := Some loc;
        pmtilesSources := <[poiType := sid]> (pmtilesSources m) |},
     Suspended sid).
Proof.
  intros Hmiss Hsrc Hrej.
  unfold loadIsochrones_call, initializePMTilesSource, getSource, addSource.
  simpl. by rewrite Hmiss, Hsrc, Hrej.
Qed.

(** A miss with a fresh registration that is confirmed in time. *)
Lemma loadIsochrones_loaded :
  isochroneData m !! key = None →
  sources (map m) !! sid = None →
  rejects_source R sid = false →
  settlement R sid = Fulfilled →
  loadIsochrones R m loc poiType =
    ({| map := {| sources := <[sid := sourceSpecFor R poiType loc]> (sources (map m));
                  layers := layers (map m) |};
        isochroneData := <[key := createMockIsochroneData poiType loc]> (isochroneData m);
        activeLayers := activeLayers m; currentLocation := Some loc;
        pmtilesSources := <[poiType := sid]> (pmtilesSources m) |},
     Some (createMockIsochroneData poiType loc)).
Proof.
  intros Hmiss Hsrc Hrej Hset. unfold loadIsochrones.
  rewrite loadIsochrones_call_suspended, Hset by done. done.
Qed.

(** A miss with a fresh registration that is not confirmed in time. *)
Lemma loadIsochrones_timed_out :
  isochroneData m !! key = None →
  sources (map m) !! sid = None →
  rejects_source R sid = false →
  settlement R sid = Rejected →
  loadIsochrones R m loc poiType =
    ({| map := {| sources := <[sid := sourceSpecFor R poiType loc]> (sources (map m));
                  layers := layers (map m) |};
        isochroneData := isochroneData m;
        activeLayers := activeLayers m; currentLocation := Some loc;
        pmtilesSources := <[poiType := sid]> (pmtilesSources m) |},
     None).
Proof.
  intros Hmiss Hsrc Hrej Hset. unfold loadIsochrones.
  rewrite loadIsochrones_call_suspended, Hset by done. done.
Qed.

Lemma load_cases : LoadCase R m loc poiType.
Proof.
  destruct (isochroneData m !! key) as [data |] eqn:Hc; [by econstructor 1 |].
  destruct (sources (map m) !! sid) as [spec |] eqn:Hs; [by econstructor 2 |].
  destruct (rejects_source R sid) eqn:Hr; [by constructor 3 |].
  destruct (settlement R sid) eqn:Hw; [by constructor 4 | by constructor 5].
Qed.

End Loading.

(** A call of [loadIsochrones] that returns [null] leaves the cache as it
    was, without an entry under its key. *)
Lemma failed_load_caches_nothing (R : Renderer) (m : IsochroneManager)
    (loc : Location) (poiType : string) :
  (loadIsochrones R m loc poiType).2 = None →
  isochroneData (loadIsochrones R m loc poiType).1 = isochroneData m
  ∧ isochroneData m !! cacheKey poiType loc = None.
Proof.
  destruct (load_cases R m loc poiType)
    as [d Hc | spec Hc Hs | Hc Hs Hr | Hc Hs Hr Hw | Hc Hs Hr Hw].
  - destruct (loadIsochrones_hit R m loc poiType d Hc) as [_ ->]. done.
  - by rewrite (loadIsochrones_registered R m loc poiType spec).
  - by rewrite loadIsochrones_rejected.
  - by rewrite loadIsochrones_loaded.
  - by rewrite loadIsochrones_timed_out.
Qed.

(** What a call of [loadIsochrones] does to the sources of the map: a
    registration under the source id when the cache misses, the source is
    not registered and the renderer accepts it, and nothing otherwise. *)
Lemma loadIsochrones_sources (R : Renderer) (m : IsochroneManager)
    (loc : Location) (poiType : string) :
  sources (map (loadIsochrones R m loc poiType).1) =
    match isochroneData m !! cacheKey poiType loc, sources (map m) !! sourceId poiType loc with
    | None, None =>
        if rejects_source R (sourceId poiType loc) then sources (map m)
        else <[sourceId poiType loc := sourceSpecFor R poiType loc]> (sources (map m))
    | _, _ => sources (map m)
    end.
Proof.
  unfold loadIsochrones. rewrite loadIsochrones_call_eq.
  destruct (isochroneData m !! cacheKey poiType loc); [done |].
  destruct (sources (map m) !! sourceId poiType loc); [done |].
  destruct (rejects_source R (sourceId poiType loc)); [done |].
  by destruct (settlement R (sourceId poiType loc)).
Qed.

(** A call of [loadIsochrones] writes the cache under its own key only. *)
Lemma loadIsochrones_cache_other (R : Renderer) (m : IsochroneManager)
    (loc : Location) (poiType k : string) :
  k ≠ cacheKey poiType loc →
  isochroneData (loadIsochrones R m loc poiType).1 !! k = isochroneData m !! k.
Proof.
  intros Hk. unfold loadIsochrones. rewrite loadIsochrones_call_eq.
  destruct (isochroneData m !! cacheKey poiType loc); [done |].
  destruct (sources (map m) !! sourceId poiType loc); [by apply lookup_insert_ne |].
  destruct (rejects_source R (sourceId poiType loc)); [done |].
  destruct (settlement R (sourceId poiType loc)); [by apply lookup_insert_ne | done].
Qed.

Lemma settlement_time (R : Renderer) (sid : string) :
  match settlement R sid with
  | Fulfilled => (settle_time R sid < SOURCE_TIMEOUT_MS)%N
  | Rejected => settle_time R sid = SOURCE_TIMEOUT_MS
  end.
Proof.
  unfold settlement, settle_time. destruct (source_loaded_after R sid) as [t |]; [| done].
  case_decide; lia.
Qed.

(** The order in which the promises of two categories settle makes no
    difference to the manager, nor to what the calls return. *)
Lemma settled_commute (s1 s2 : Settlement) (m : IsochroneManager) (loc : Location)
    (p1 p2 : string) :
  p1 ≠ p2 →
  (loadIsochrones_settled s2 (loadIsochrones_settled s1 m loc p1).1 loc p2).1
  = (loadIsochrones_settled s1 (loadIsochrones_settled s2 m loc p2).1 loc p1).1
  ∧ (loadIsochrones_settled s1 (loadIsochrones_settled s2 m loc p2).1 loc p1).2
    = (loadIsochrones_settled s1 m loc p1).2.
Proof.
  intros Hne.
  assert (cacheKey p1 loc ≠ cacheKey p2 loc) as Hk.
  { intros E. by apply Hne, (cacheKey_category _ _ loc). }
  destruct s1, s2; simpl; split; try done.
  f_equal. by apply insert_insert_ne.
Qed.

(** The manager after the calls for two categories have both been suspended
    on fresh registrations. *)
Lemma both_suspended (R : Renderer) (m : IsochroneManager) (loc : Location)
    (p1 p2 : string) :
  p1 ≠ p2 →
  isochroneData m !! cacheKey p1 loc = None →
  isochroneData m !! cacheKey p2 loc = None →
  sources (map m) !! sourceId p1 loc = None →
  sources (map m) !! sourceId p2 loc = None →
  rejects_source R (sourceId p1 loc) = false →
  rejects_source R (sourceId p2 loc) = false →
  ∃ m2,
    (let '(m1, s1) := loadIsochrones_call R m loc p1 in
     let '(m2', s2) := loadIsochrones_call R m1 loc p2 in (m2', s1, s2))
    = (m2, Suspended (sourceId p1 loc), Suspended (sourceId p2 loc))
    ∧ isochroneData m2 = isochroneData m
    ∧ sources (map m2)
      = <[sourceId p2 loc := sourceSpecFor R p2 loc]>
          (<[sourceId p1 loc := sourceSpecFor R p1 loc]> (sources (map m))).
Proof.
  intros Hne Hc1 Hc2 Hs1 Hs2 Hr1 Hr2.
  assert (sourceId p1 loc ≠ sourceId p2 loc) as Hsne.
  { intros E. by apply Hne, (sourceId_category _ _ loc). }
  rewrite (loadIsochrones_call_eq R m loc p1), Hc1, Hs1, Hr1.
  rewrite loadIsochrones_call_eq. simpl.
  rewrite Hc2, lookup_insert_ne, Hs2, Hr2 by done.
  eexists. split_and!; done.
Qed.

(** ** Statistics *)

Lemma getStatistics_lookup (m : IsochroneManager) (poiType : string) :
  getStatistics m poiType = statisticsOf <$> isochroneData m !! statisticsKey m poiType.
Proof. unfold getStatistics. by destruct (isochroneData m !! statisticsKey m poiType). Qed.

Lemma statisticsOf_empty (data : FeatureCollection) :
  features data = [] →
  statisticsOf data = {| total := 0; byTime := {[ 5 := 0%nat; 10 := 0%nat; 15 := 0%nat ]} |}.
Proof. unfold statisticsOf. intros ->. reflexivity. Qed.

(** ** The states of a manager *)

Lemma cache_wf_insert (m : IsochroneManager) (poiType : string) (loc : Location)
    (cache : gmap string FeatureCollection) :
  cache_wf m →
  cache = <[cacheKey poiType loc := createMockIsochroneData poiType loc]> (isochroneData m) →
  ∀ k data, cache !! k = Some data →
    ∃ poiType loc, k = cacheKey poiType loc ∧ data = createMockIsochroneData poiType loc.
Proof.
  intros Hwf -> k data. rewrite lookup_insert. case_decide as Hk.
  - intros [= <-]. subst k. eauto.
  - apply Hwf.
Qed.

(** A loop that only alters layers of the map keeps the cache, the Active
    Layer Set and the ids of the layers. *)
Lemma alter_loop_invariant (f : IsochroneManager → Z → IsochroneManager)
    (ts : list Z) (m : IsochroneManager) :
  (∀ m t, f m t = m
          ∨ ∃ g l, f m t = with_map m {| sources := sources (map m);
                                         layers := alter g l (layers (map m)) |}) →
  isochroneData (foldl f m ts) = isochroneData m
  ∧ activeLayers (foldl f m ts) = activeLayers m
  ∧ ∀ l, is_Some (layers (map (foldl f m ts)) !! l) ↔ is_Some (layers (map m) !! l).
Proof.
  intros Hf. revert m. induction ts as [| t ts IH]; intros m; simpl; [done |].
  destruct (IH (f m t)) as (Hd & Ha & Hl).
  destruct (Hf m t) as [E | (g & l0 & E)]; rewrite E in *; [done |].
  split_and!; [done | done |].
  intros l. rewrite Hl. simpl. rewrite lookup_alter.
  case_decide; [subst; by rewrite fmap_is_Some | done].
Qed.

Lemma toggleIsochroneLayers_invariant (m : IsochroneManager) (poiType : string)
    (visible : bool) :
  let m' := toggleIsochroneLayers m poiType visible in
  isochroneData m' = isochroneData m
  ∧ activeLayers m' = activeLayers m
  ∧ ∀ l, is_Some (layers (map m') !! l) ↔ is_Some (layers (map m) !! l).
Proof.
  apply alter_loop_invariant. intros m0 t. unfold getLayer, setVisibility.
  destruct (layers (map m0) !! layerId poiType t); [right; eauto | by left].
Qed.

Lemma updateIsochroneColors_invariant (m : IsochroneManager) (poiType : string) :
  let m' := updateIsochroneColors m poiType in
  isochroneData m' = isochroneData m
  ∧ activeLayers m' = activeLayers m
  ∧ ∀ l, is_Some (layers (map m') !! l) ↔ is_Some (layers (map m) !! l).
Proof.
  apply alter_loop_invariant. intros m0 t. unfold getLayer, setPaintColors.
  destruct (layers (map m0) !! layerId poiType t); [right; eauto | by left].
Qed.

(** The two invariants of the states of a manager. *)
Lemma reachable_invariant (m : IsochroneManager) :
  reachable m → cache_wf m ∧ consistent m.
Proof.
  induction 1 as [mp | m loc _ [IHc IHl] | R m loc poiType _ [IHc IHl]
                  | s m loc poiType _ [IHc IHl] | R m poiType data _ [IHc IHl]
                  | m poiType _ [IHc IHl] | m poiType visible _ [IHc IHl]
                  | m poiType _ [IHc IHl] | m _ [IHc IHl]].
  - split; [intros k d Hk; simpl in Hk; by rewrite lookup_empty in Hk
           | intros l Hl; simpl in Hl; by apply elem_of_empty in Hl].
  - done.
  - rewrite loadIsochrones_call_eq.
    destruct (isochroneData m !! cacheKey poiType loc); [done |].
    destruct (sources (map m) !! sourceId poiType loc).
    + split; [| done]. intros k data Hk. by eapply (cache_wf_insert m poiType loc).
    + by destruct (rejects_source R (sourceId poiType loc)).
  - destruct s; [| done]. split; [| done].
    intros k data Hk. by eapply (cache_wf_insert m poiType loc).
  - split; [| by apply addIsochroneLayers_consistent].
    destruct (addIsochroneLayers_frame R m poiType data) as (_ & _ & Hd & _).
    unfold cache_wf. by rewrite Hd.
  - split; [| by apply removeIsochroneLayers_consistent].
    destruct (removeIsochroneLayers_frame m poiType) as (_ & _ & Hd & _).
    unfold cache_wf. by rewrite Hd.
  - destruct (toggleIsochroneLayers_invariant m poiType visible) as (Hd & Ha & Hl).
    split; [unfold cache_wf; by rewrite Hd |].
    intros l. rewrite Ha, Hl. apply IHl.
  - destruct (updateIsochroneColors_invariant m poiType) as (Hd & Ha & Hl).
    split; [unfold cache_wf; by rewrite Hd |].
    intros l. rewrite Ha, Hl. apply IHl.
  - split; [intros k d Hk; simpl in Hk; by rewrite lookup_empty in Hk
           | intros l Hl; simpl in Hl; by apply elem_of_empty in Hl].
Qed.

Lemma reachable_loadIsochrones (R : Renderer) (m : IsochroneManager)
    (loc : Location) (poiType : string) :
  reachable m → reachable (loadIsochrones R m loc poiType).1.
Proof.
  intros Hm. unfold loadIsochrones.
  pose proof (reachable_call R m loc poiType Hm) as Hcall.
  destruct (loadIsochrones_call R m loc poiType) as [m' [r | sid]]; [done |].
  by apply reachable_settled.
Qed.

Lemma reachable_generateIsochrones (R : Renderer) (m : IsochroneManager)
    (loc : Location) (poiType : string) :
  reachable m → reachable (App.generateIsochrones R m loc poiType).
Proof.
  intros Hm. unfold App.generateIsochrones.
  pose proof (reachable_loadIsochrones R m loc poiType Hm) as Hload.
  destruct (loadIsochrones R m loc poiType) as [m' [data |]]; [| done].
  by apply reachable_add.
Qed.

(** * The properties that the specification states *)

(** ** The cache *)




(** ** Sources *)

(** C2. The quantization of a location is [Math.round] of the binary64
    product of each coordinate and 1000. For a category and two locations
    none of which is cached or registered, and a renderer that accepts the
    registrations: the source ids of the two locations are equal exactly
    when the locations have the same quantization; if they have, loading
    both registers one source, and the second load none; if they have not,
    loading both registers two sources with distinct ids. In the area that
    [getPMTilesFileName] names, a location that is written with three
    decimals is its own quantization. *)
Theorem one_source_per_quantized_location (R : Renderer) (m : IsochroneManager)
    (poiType : string) (loc1 loc2 : Location) :
  isochroneData m !! cacheKey poiType loc1 = None →
  isochroneData m !! cacheKey poiType loc2 = None →
  sources (map m) !! sourceId poiType loc1 = None →
  sources (map m) !! sourceId poiType loc2 = None →
  rejects_source R (sourceId poiType loc1) = false →
  rejects_source R (sourceId poiType loc2) = false →
  let m1 := (loadIsochrones R m loc1 poiType).1 in
  let m2 := (loadIsochrones R m1 loc2 poiType).1 in
  (sourceId poiType loc1 = sourceId poiType loc2 ↔ quantize loc1 = quantize loc2)
  ∧ (quantize loc1 = quantize loc2 →
       sources (map m2) = sources (map m1)
       ∧ dom (sources (map m2)) = {[sourceId poiType loc1]} ∪ dom (sources (map m))
       ∧ size (sources (map m2)) = S (size (sources (map m))))
  ∧ (quantize loc1 ≠ quantize loc2 →
       sourceId poiType loc1 ≠ sourceId poiType loc2
       ∧ dom (sources (map m2))
         = {[sourceId poiType loc1; sourceId poiType loc2]} ∪ dom (sources (map m))
       ∧ size (sources (map m2)) = S (S (size (sources (map m)))))
  ∧ (∀ a b, 43600 ≤ a ≤ 43700 → -70250 ≤ b ≤ -70200 →
       quantize {| lat := Number a 3; lng := Number b 3 |} = (Integer a, Integer b)
       ∧ quantize_3_decimals {| lat := Number a 3; lng := Number b 3 |} = (a, b)).
Proof.
  intros Hc1 Hc2 Hs1 Hs2 Hr1 Hr2 m1 m2.
  assert (sources (map m1)
          = <[sourceId poiType loc1 := sourceSpecFor R poiType loc1]> (sources (map m)))
    as Hm1.
  { unfold m1. by rewrite loadIsochrones_sources, Hc1, Hs1, Hr1. }
  split_and!.
  - apply sourceId_quantize.
  - intros Hq. apply (sourceId_quantize poiType) in Hq.
    assert (sources (map m2) = sources (map m1)) as Hm2.
    { unfold m2. rewrite loadIsochrones_sources.
      destruct (isochroneData m1 !! cacheKey poiType loc2); [done |].
      by rewrite <- Hq, Hm1, lookup_insert_eq. }
    split_and!; [done | |].
    + by rewrite Hm2, Hm1, dom_insert_L.
    + rewrite Hm2, Hm1. by apply map_size_insert_None.
  - intros Hq.
    assert (sourceId poiType loc1 ≠ sourceId poiType loc2) as Hne.
    { intros E. by apply Hq, (sourceId_quantize poiType). }
    assert (cacheKey poiType loc2 ≠ cacheKey poiType loc1) as Hkne.
    { intros E. by apply Hne, cacheKey_sourceId. }
    assert (sources (map m2)
            = <[sourceId poiType loc2 := sourceSpecFor R poiType loc2]> (sources (map m1)))
      as Hm2.
    { unfold m2. rewrite loadIsochrones_sources.
      unfold m1 at 1. rewrite loadIsochrones_cache_other, Hc2 by done.
      by rewrite Hm1, lookup_insert_ne, Hs2, Hr2. }
    split_and!; [done | |].
    + rewrite Hm2, Hm1, !dom_insert_L. set_solver.
    + rewrite Hm2, Hm1. rewrite !map_size_insert_None; [done | done |].
      by rewrite lookup_insert_ne.
  - intros a b Ha Hb. split.
    + unfold quantize. simpl. rewrite !round_times_1000_box by lia. done.
    + unfold quantize_3_decimals, round_3_decimals. simpl.
      change (pow10 3) with 1000. f_equal.
      * symmetry. apply Z.div_unique with 1000; lia.
      * symmetry. apply Z.div_unique with 1000; lia.
Qed.

Lemma one_source_per_quantized_location_witness :
  let near := {| lat := Number 436594 4; lng := Number (-702571) 4 |} in
  let far := {| lat := Number 43700 3; lng := Number (-70300) 3 |} in
  size (sources (map (loadIsochrones Scenario.prompt
                        (loadIsochrones Scenario.prompt Scenario.fresh
                           Scenario.portland "coffee").1 near "coffee").1)) = 1%nat
  ∧ size (sources (map (loadIsochrones Scenario.prompt
                          (loadIsochrones Scenario.prompt Scenario.fresh
                             Scenario.portland "coffee").1 far "coffee").1)) = 2%nat.
Proof.
  intros near far. split.
  - apply (one_source_per_quantized_location Scenario.prompt Scenario.fresh "coffee"
             Scenario.portland near); reflexivity.
  - apply (one_source_per_quantized_location Scenario.prompt Scenario.fresh "coffee"
             Scenario.portland far); try reflexivity.
    vm_compute. discriminate.
Defined.

(** A counterexample to C2 as it is stated, with the quantization read as
    rounding to three decimals. The latitudes 32.5455 and 32.546 round to
    the same three decimals, but the binary64 product of 32.5455 and 1000 is
    32545.499999999996: the two locations get two source ids, and loading
    both registers two sources. The latitudes 32.7195 and 32.719 round to
    different decimals, but get one source id, and loading both registers
    one source. The latitude 43.660499999999999 is the binary64 number of
    43.6605, which lies below 43.6605: it rounds to 43.660 as 43.66 does,
    but its binary64 product with 1000 is 43660.5, and the two locations get
    two source ids. *)
Lemma rounding_alike_is_not_one_source :
  let a := {| lat := Number 325455 4; lng := Number (-702568) 4 |} in
  let b := {| lat := Number 32546 3; lng := Number (-702568) 4 |} in
  let c := {| lat := Number 327195 4; lng := Number (-702568) 4 |} in
  let d := {| lat := Number 32719 3; lng := Number (-702568) 4 |} in
  let e := {| lat := Number 43660499999999999 15; lng := Number (-702568) 4 |} in
  let f := {| lat := Number 4366 2; lng := Number (-702568) 4 |} in
  let both := λ l1 l2,
    (loadIsochrones Scenario.prompt
       (loadIsochrones Scenario.prompt Scenario.fresh l1 "coffee").1 l2 "coffee").1 in
  quantize_3_decimals a = quantize_3_decimals b
  ∧ SpecFloat.SFmul prec emax (to_binary64 (lat a))
      (SpecFloat.binary_normalize prec emax 1000 0 false)
    = SpecFloat.S754_finite false 8946038920445951 (-38)
  ∧ sourceId "coffee" a = "isochrones-coffee-32545--70257"
  ∧ sourceId "coffee" b = "isochrones-coffee-32546--70257"
  ∧ size (sources (map (both a b))) = 2%nat
  ∧ quantize_3_decimals c ≠ quantize_3_decimals d
  ∧ sourceId "coffee" c = sourceId "coffee" d
  ∧ size (sources (map (both c d))) = 1%nat
  ∧ to_binary64 (lat e) = to_binary64 (Number 436605 4)
  ∧ quantize_3_decimals e = quantize_3_decimals f
  ∧ sourceId "coffee" e = "isochrones-coffee-43661--70257"
  ∧ sourceId "coffee" f = "isochrones-coffee-43660--70257"
  ∧ size (sources (map (both e f))) = 2%nat.
Proof. intros a b c d e f both. by split_and!; vm_compute. Qed.

(** C3. When the source of a category is not confirmed within the window
    of ten seconds, [loadIsochrones] returns [null] for it, the source stays
    registered and the cache is as it was; and when another category is
    requested in the same turn, before or after it, and its source is
    confirmed in time, that call returns its descriptor and caches it. *)
Theorem timed_out_load_spares_sibling (R : Renderer) (m : IsochroneManager)
    (loc : Location) (slow fast : string) :
  slow ≠ fast →
  isochroneData m !! cacheKey slow loc = None →
  isochroneData m !! cacheKey fast loc = None →
  sources (map m) !! sourceId slow loc = None →
  sources (map m) !! sourceId fast loc = None →
  rejects_source R (sourceId slow loc) = false →
  rejects_source R (sourceId fast loc) = false →
  settlement R (sourceId slow loc) = Rejected →
  settlement R (sourceId fast loc) = Fulfilled →
  (let '(m', r) := loadIsochrones R m loc slow in
   r = None
   ∧ sources (map m') !! sourceId slow loc = Some (sourceSpecFor R slow loc)
   ∧ isochroneData m' = isochroneData m)
  ∧ (let '(m', r_slow, r_fast) := loadTogether R m loc slow fast in
     r_slow = None
     ∧ r_fast = Some (createMockIsochroneData fast loc)
     ∧ sources (map m') !! sourceId slow loc = Some (sourceSpecFor R slow loc)
     ∧ isochroneData m' !! cacheKey slow loc = None
     ∧ isochroneData m' !! cacheKey fast loc = Some (createMockIsochroneData fast loc))
  ∧ (let '(m', r_fast, r_slow) := loadTogether R m loc fast slow in
     r_slow = None
     ∧ r_fast = Some (createMockIsochroneData fast loc)
     ∧ sources (map m') !! sourceId slow loc = Some (sourceSpecFor R slow loc)
     ∧ isochroneData m' !! cacheKey slow loc = None
     ∧ isochroneData m' !! cacheKey fast loc = Some (createMockIsochroneData fast loc)).
Proof.
  intros Hne Hcs Hcf Hss Hsf Hrs Hrf Hslow Hfast.
  assert (sourceId slow loc ≠ sourceId fast loc) as Hsne.
  { intros E. by apply Hne, (sourceId_category _ _ loc). }
  assert (cacheKey fast loc ≠ cacheKey slow loc) as Hkne.
  { intros E. by apply Hne, eq_sym, (cacheKey_category _ _ loc). }
  pose proof (settlement_time R (sourceId slow loc)) as Hts. rewrite Hslow in Hts.
  pose proof (settlement_time R (sourceId fast loc)) as Htf. rewrite Hfast in Htf.
  split_and!.
  - rewrite loadIsochrones_timed_out by done. simpl. by rewrite lookup_insert_eq.
  - unfold loadTogether.
    destruct (both_suspended R m loc slow fast) as (m2 & E & Hd & Hsrc); try done.
    destruct (loadIsochrones_call R m loc slow) as [m1 s1].
    destruct (loadIsochrones_call R m1 loc fast) as [m2' s2].
    injection E as -> -> ->.
    rewrite decide_False by lia. rewrite Hfast, Hslow. simpl.
    rewrite Hsrc, Hd. split_and!; try done.
    + by rewrite lookup_insert_ne, lookup_insert_eq.
    + by rewrite lookup_insert_ne.
    + by rewrite lookup_insert_eq.
  - unfold loadTogether.
    destruct (both_suspended R m loc fast slow) as (m2 & E & Hd & Hsrc); try done.
    destruct (loadIsochrones_call R m loc fast) as [m1 s1].
    destruct (loadIsochrones_call R m1 loc slow) as [m2' s2].
    injection E as -> -> ->.
    rewrite decide_True by lia. rewrite Hfast, Hslow. simpl.
    rewrite Hsrc, Hd. split_and!; try done.
    + by rewrite lookup_insert_eq.
    + by rewrite lookup_insert_ne.
    + by rewrite lookup_insert_eq.
Qed.

Lemma timed_out_load_spares_sibling_witness :
  (loadIsochrones Scenario.slow_bar Scenario.fresh Scenario.portland "bar").2 = None
  ∧ (loadTogether Scenario.slow_bar Scenario.fresh Scenario.portland "bar" "coffee").2
    = Some (createMockIsochroneData "coffee" Scenario.portland)
  ∧ (loadTogether Scenario.slow_bar Scenario.fresh Scenario.portland "bar" "coffee").1.2
    = None.
Proof.
  assert ("bar" ≠ "coffee") as Hne by discriminate.
  pose proof (timed_out_load_spares_sibling Scenario.slow_bar Scenario.fresh
                Scenario.portland "bar" "coffee" Hne eq_refl eq_refl eq_refl eq_refl
                eq_refl eq_refl eq_refl eq_refl) as (H1 & H2 & _).
  destruct (loadIsochrones Scenario.slow_bar Scenario.fresh Scenario.portland "bar")
    as [m' r].
  destruct (loadTogether Scenario.slow_bar Scenario.fresh Scenario.portland "bar" "coffee")
    as [[m'' r1] r2].
  simpl. destruct H1 as (-> & _). destruct H2 as (-> & -> & _). done.
Defined.

(** ** Layers *)

(** C4, as amended. For a category none of whose layer ids is in the Active
    Layer Set, [addIsochroneLayers] followed by [removeIsochroneLayers]
    leaves the Active Layer Set as it was before the add. *)
Theorem add_then_remove_restores_active (R : Renderer) (m : IsochroneManager)
    (poiType : string) (data : option FeatureCollection) :
  (∀ l, l ∈ layerIds poiType → l ∉ activeLayers m) →
  activeLayers (removeIsochroneLayers (addIsochroneLayers R m poiType data) poiType)
  = activeLayers m.
Proof.
  intros Hfree.
  destruct (addIsochroneLayers_active R m poiType data) as (Hmono & Hnew & _).
  destruct (removeIsochroneLayers_spec (addIsochroneLayers R m poiType data) poiType)
    as [_ Hact].
  apply set_eq. intros l. rewrite Hact. split.
  - intros [Hl Hn]. destruct (decide (l ∈ activeLayers m)) as [| Hout]; [done |].
    destruct Hn. by apply Hnew.
  - intros Hl. split; [by apply Hmono |]. intros [Hid _]. by apply (Hfree l).
Qed.

Lemma add_then_remove_restores_active_witness :
  activeLayers (removeIsochroneLayers
                  (addIsochroneLayers Scenario.prompt
                     (loadIsochrones Scenario.prompt Scenario.fresh Scenario.portland "bar").1
                     "bar" None) "bar")
  = activeLayers (loadIsochrones Scenario.prompt Scenario.fresh Scenario.portland "bar").1.
Proof.
  apply (add_then_remove_restores_active Scenario.prompt
           (loadIsochrones Scenario.prompt Scenario.fresh Scenario.portland "bar").1
           "bar" None).
  intros l _.
  replace (activeLayers
             (loadIsochrones Scenario.prompt Scenario.fresh Scenario.portland "bar").1)
    with (∅ : gset string) by (by vm_compute).
  apply not_elem_of_empty.
Defined.

(** A counterexample to C4 as it is stated: when the layers of the category
    are active before the add, the add changes nothing and the remove takes
    them away. *)
Lemma add_then_remove_loses_active_layers :
  activeLayers Scenario.coffee_shown
    = {[ "coffee-isochrone-5"; "coffee-isochrone-10"; "coffee-isochrone-15" ]}
  ∧ activeLayers
      (removeIsochroneLayers
         (addIsochroneLayers Scenario.prompt Scenario.coffee_shown "coffee" None) "coffee")
    = ∅
  ∧ activeLayers
      (removeIsochroneLayers
         (addIsochroneLayers Scenario.prompt Scenario.coffee_shown "coffee" None) "coffee")
    ≠ activeLayers Scenario.coffee_shown.
Proof.
  split_and!.
  - by vm_compute.
  - by vm_compute.
  - intros H.
    apply (f_equal (λ s : gset string, bool_decide ("coffee-isochrone-5" ∈ s))) in H.
    vm_compute in H. discriminate H.
Qed.

(** C5. On a manager whose active layers are layers of the map, as they
    are in every state of a manager ([reachable_invariant]),
    [removeIsochroneLayers] takes exactly the layer ids of the category over
    the configured time bands out of the Active Layer Set and out of the map,
    and leaves every layer of another category, and every other layer, as
    it was. *)
Theorem remove_layers_exact (m : IsochroneManager) (poiType : string) :
  consistent m →
  let m' := removeIsochroneLayers m poiType in
  activeLayers m' = activeLayers m ∖ layerIds poiType
  ∧ (∀ t, t ∈ ISOCHRONE_CONFIG.timeIntervals →
          layers (map m') !! layerId poiType t = None)
  ∧ (∀ poiType' t, poiType' ≠ poiType → t ∈ ISOCHRONE_CONFIG.timeIntervals →
          layers (map m') !! layerId poiType' t = layers (map m) !! layerId poiType' t
          ∧ (layerId poiType' t ∈ activeLayers m' ↔ layerId poiType' t ∈ activeLayers m))
  ∧ (∀ l, l ∉ layerIds poiType → layers (map m') !! l = layers (map m) !! l)
  ∧ consistent m'.
Proof.
  intros Hcons m'. destruct (removeIsochroneLayers_spec m poiType) as [Hlay Hact].
  fold m' in Hlay, Hact.
  assert (∀ poiType' t, poiType' ≠ poiType → t ∈ ISOCHRONE_CONFIG.timeIntervals →
            layerId poiType' t ∉ layerIds poiType) as Hother.
  { intros p' t Hne Ht (t' & Ht' & Heq)%elem_of_layerIds.
    apply layerId_inj in Heq as [? _]; done. }
  split_and!.
  - apply set_eq. intros l. rewrite Hact, elem_of_difference. split.
    + intros [Hl Hn]. split; [done |]. intros Hid. apply Hn. split; [done |]. by apply Hcons.
    + intros [Hl Hn]. split; [done |]. by intros [? _].
  - intros t Ht. rewrite Hlay, decide_True; [done |]. apply elem_of_layerIds. eauto.
  - intros p' t Hne Ht. specialize (Hother p' t Hne Ht). split.
    + by rewrite Hlay, decide_False.
    + rewrite Hact. split; [by intros [? _] |]. intros ?. split; [done |]. by intros [? _].
  - intros l Hl. by rewrite Hlay, decide_False.
  - intros l [Hl Hn]%Hact. rewrite Hlay. case_decide as Hid.
    + destruct Hn. split; [done |]. by apply Hcons.
    + by apply Hcons.
Qed.

Lemma remove_layers_exact_witness :
  activeLayers (removeIsochroneLayers Scenario.all_shown "grocery")
  = {[ "coffee-isochrone-5"; "coffee-isochrone-10"; "coffee-isochrone-15";
       "bar-isochrone-5"; "bar-isochrone-10"; "bar-isochrone-15" ]}.
Proof.
  destruct (remove_layers_exact Scenario.all_shown "grocery") as (Hact & _).
  - apply reachable_invariant. unfold Scenario.all_shown. simpl.
    repeat apply reachable_generateIsochrones. apply reachable_new.
  - rewrite Hact. by vm_compute.
Defined.

(** C6. In [addIsochroneLayers], with a source for the category and a
    location set, every time band whose layer the renderer accepts is in the
    map and in the Active Layer Set afterwards, whichever other bands the
    renderer rejects; a rejected band changes neither. *)
Theorem rejected_band_does_not_stop_the_others (R : Renderer) (m : IsochroneManager)
    (poiType pmtilesSource : string) (loc : Location) (data : option FeatureCollection) :
  pmtilesSources m !! poiType = Some pmtilesSource →
  currentLocation m = Some loc →
  let m' := addIsochroneLayers R m poiType data in
  ∀ t, t ∈ ISOCHRONE_CONFIG.timeIntervals →
    (rejects_layer R (layerId poiType t) = false →
       layerId poiType t ∈ activeLayers m'
       ∧ is_Some (layers (map m') !! layerId poiType t))
    ∧ (rejects_layer R (layerId poiType t) = true →
       (layerId poiType t ∈ activeLayers m' ↔ layerId poiType t ∈ activeLayers m)
       ∧ layers (map m') !! layerId poiType t = layers (map m) !! layerId poiType t).
Proof.
  intros Hsrc Hloc m' t Ht. unfold m', addIsochroneLayers. rewrite Hsrc.
  destruct (add_loop_spec R poiType pmtilesSource loc ISOCHRONE_CONFIG.timeIntervals m Hloc)
    as (_ & _ & _ & _ & Hact & Hkeep & Hnew & Hin).
  split.
  - intros Hacc. split; [| by apply Hin]. apply Hact. right. eauto.
  - intros Hrej. split.
    + rewrite Hact. split; [| by left]. intros [? | (t' & _ & Heq & Hacc)]; [done |].
      congruence.
    + destruct (layers (map m) !! layerId poiType t) as [c |] eqn:E; [by apply Hkeep |].
      destruct (Hnew _ E) as [? | (t' & _ & _ & Hacc & _)]; [done | congruence].
Qed.

Lemma rejected_band_does_not_stop_the_others_witness :
  let m := (loadIsochrones Scenario.rejecting_ten Scenario.fresh Scenario.portland "coffee").1 in
  let m' := addIsochroneLayers Scenario.rejecting_ten m "coffee" None in
  "coffee-isochrone-5" ∈ activeLayers m'
  ∧ "coffee-isochrone-15" ∈ activeLayers m'
  ∧ ("coffee-isochrone-10" ∈ activeLayers m' ↔ "coffee-isochrone-10" ∈ activeLayers m).
Proof.
  intros m m'.
  assert (pmtilesSources m !! "coffee" = Some "isochrones-coffee-43659--70257") as Hsrc
    by (by vm_compute).
  assert (currentLocation m = Some Scenario.portland) as Hloc by (by vm_compute).
  pose proof (rejected_band_does_not_stop_the_others Scenario.rejecting_ten m "coffee"
                _ _ None Hsrc Hloc) as H.
  split_and!.
  - destruct (H 5 mem_bands_5) as [Hacc _]. apply Hacc. by vm_compute.
  - destruct (H 15 mem_bands_15) as [Hacc _]. apply Hacc. by vm_compute.
  - destruct (H 10 mem_bands_10) as [_ Hrej]. apply Hrej. by vm_compute.
Defined.

(** ** Statistics and styling *)

(** C7. [getStatistics] returns [null] when the cache has no entry under the
    key of the category and the current location, which is so for every
    category of a manager whose location is not set; and when the entry has
    no features, as every entry of a manager has, it returns a total of 0
    with 0 for each of the time bands 5, 10 and 15. *)
Theorem statistics_null_or_zero (m : IsochroneManager) (poiType : string) :
  (isochroneData m !! statisticsKey m poiType = None → getStatistics m poiType = None)
  ∧ (reachable m → currentLocation m = None → getStatistics m poiType = None)
  ∧ (∀ data, isochroneData m !! statisticsKey m poiType = Some data →
             features data = [] →
             getStatistics m poiType
             = Some {| total := 0;
                       byTime := {[ 5 := 0%nat; 10 := 0%nat; 15 := 0%nat ]} |})
  ∧ (reachable m →
       getStatistics m poiType = None
       ∨ getStatistics m poiType
         = Some {| total := 0; byTime := {[ 5 := 0%nat; 10 := 0%nat; 15 := 0%nat ]} |}).
Proof.
  rewrite getStatistics_lookup. split_and!.
  - by intros ->.
  - intros [Hwf _]%reachable_invariant Hloc.
    destruct (isochroneData m !! statisticsKey m poiType) as [data |] eqn:E; [| done].
    apply Hwf in E as (p & loc & Hk & _). unfold statisticsKey in Hk. rewrite Hloc in Hk.
    symmetry in Hk. by apply cacheKey_not_undefined in Hk.
  - intros data -> Hf. simpl. by rewrite statisticsOf_empty.
  - intros [Hwf _]%reachable_invariant.
    destruct (isochroneData m !! statisticsKey m poiType) as [data |] eqn:E; [| by left].
    right. apply Hwf in E as (p & loc & _ & ->). simpl. by rewrite statisticsOf_empty.
Qed.

Lemma statistics_null_or_zero_witness :
  getStatistics Scenario.fresh "bar" = None
  ∧ getStatistics (loadIsochrones Scenario.prompt Scenario.fresh Scenario.portland "bar").1 "bar"
    = Some {| total := 0; byTime := {[ 5 := 0%nat; 10 := 0%nat; 15 := 0%nat ]} |}.
Proof.
  split.
  - destruct (statistics_null_or_zero Scenario.fresh "bar") as (Hnone & _).
    apply Hnone. reflexivity.
  - destruct (statistics_null_or_zero
                (loadIsochrones Scenario.prompt Scenario.fresh Scenario.portland "bar").1
                "bar") as (_ & _ & Hzero & _).
    apply (Hzero (createMockIsochroneData "bar" Scenario.portland)).
    + by vm_compute.
    + reflexivity.
Defined.




(** ** The scenario of coffee at Portland *)

(** C9. From a new manager, with the location 43.6591, -70.2568 and the
    category coffee, and a renderer that confirms the source in time and
    accepts the three layers: after [loadIsochrones] and [addIsochroneLayers]
    the Active Layer Set and the layers of the map are the three layer ids
    of coffee for the bands 5, 10 and 15, and every layer has the fill
    opacity 0.6. *)
Theorem coffee_layers_at_portland (R : Renderer) :
  rejects_source R (sourceId "coffee" Scenario.portland) = false →
  settlement R (sourceId "coffee" Scenario.portland) = Fulfilled →
  (∀ t, t ∈ ISOCHRONE_CONFIG.timeIntervals → rejects_layer R (layerId "coffee" t) = false) →
  let '(m1, data) := loadIsochrones R Scenario.fresh Scenario.portland "coffee" in
  let m2 := addIsochroneLayers R m1 "coffee" data in
  activeLayers m2 = {[ "coffee-isochrone-5"; "coffee-isochrone-10"; "coffee-isochrone-15" ]}
  ∧ dom (layers (map m2))
    = {[ "coffee-isochrone-5"; "coffee-isochrone-10"; "coffee-isochrone-15" ]}
  ∧ (∀ l cfg, layers (map m2) !! l = Some cfg →
              MapConfig.fill_opacity (MapConfig.paint cfg) = Number 6 1).
Proof.
  intros Hrs Hset Hrl.
  rewrite loadIsochrones_loaded by done.
  set (m1 := {| map := _ |}). intros m2.
  assert (pmtilesSources m1 !! "coffee" = Some (sourceId "coffee" Scenario.portland)) as Hsrc.
  { apply lookup_insert_eq. }
  assert (currentLocation m1 = Some Scenario.portland) as Hloc by done.
  unfold m2, addIsochroneLayers. rewrite Hsrc.
  destruct (add_loop_spec R "coffee" (sourceId "coffee" Scenario.portland)
              Scenario.portland ISOCHRONE_CONFIG.timeIntervals m1 Hloc)
    as (_ & _ & _ & _ & Hact & _ & Hnew & Hin).
  assert (∀ l : string,
            l ∈ ({[ "coffee-isochrone-5"; "coffee-isochrone-10"; "coffee-isochrone-15" ]}
                   : gset string)
            ↔ ∃ t, t ∈ ISOCHRONE_CONFIG.timeIntervals ∧ l = layerId "coffee" t) as Hids.
  { intros l. rewrite !elem_of_union, !elem_of_singleton. split.
    - intros [[-> | ->] | ->];
        [exists 5 | exists 10 | exists 15];
        auto using mem_bands_5, mem_bands_10, mem_bands_15.
    - intros (t & [-> | [-> | ->]]%band_cases & ->); auto. }
  split_and!.
  - apply set_eq. intros l. rewrite Hact, Hids. split.
    + intros [Hl | (t & Ht & El & _)].
      * exfalso. revert Hl. change (activeLayers m1) with (∅ : gset string).
        apply not_elem_of_empty.
      * exists t. by split.
    + intros (t & Ht & ->). right. exists t. split_and!; auto.
  - apply set_eq. intros l. rewrite elem_of_dom, Hids. split.
    + intros [c Hc]. destruct (Hnew l) as [E | (t & Ht & El & _)];
        [reflexivity | congruence | exists t; by split].
    + intros (t & Ht & ->). apply Hin; auto.
  - intros l cfg Hl.
    destruct (Hnew l) as [E | (t & _ & _ & _ & E)]; [reflexivity | congruence |].
    rewrite E in Hl. by injection Hl as <-.
Qed.

Lemma coffee_layers_at_portland_witness :
  activeLayers Scenario.coffee_shown
  = {[ "coffee-isochrone-5"; "coffee-isochrone-10"; "coffee-isochrone-15" ]}.
Proof.
  pose proof (coffee_layers_at_portland Scenario.prompt eq_refl eq_refl (λ _ _, eq_refl))
    as H.
  assert ((loadIsochrones Scenario.prompt Scenario.fresh Scenario.portland "coffee").2
          = Some (createMockIsochroneData "coffee" Scenario.portland)) as Hdata
    by (by vm_compute).
  unfold Scenario.coffee_shown, App.generateIsochrones.
  destruct (loadIsochrones Scenario.prompt Scenario.fresh Scenario.portland "coffee")
    as [m1 data].
  simpl in Hdata. rewrite Hdata in *. apply H.
Defined.

(** ** The current location *)

(** C10. [loadIsochrones] writes its location argument to the current
    location before it looks at the cache, so that after the call, whether
    it was a hit, a load or a failure, and whatever location had been set
    before, [getStatistics] reads for every category the cache entry keyed
    by that location. *)
Theorem load_overwrites_current_location (R : Renderer) (m : IsochroneManager)
    (loc : Location) (poiType : string) :
  let m' := (loadIsochrones R m loc poiType).1 in
  currentLocation m' = Some loc
  ∧ (∀ previous,
       currentLocation (loadIsochrones R (setCurrentLocation m previous) loc poiType).1
       = Some loc)
  ∧ (∀ poiType', statisticsKey m' poiType' = cacheKey poiType' loc)
  ∧ (∀ poiType', getStatistics m' poiType'
                 = statisticsOf <$> isochroneData m' !! cacheKey poiType' loc).
Proof.
  assert (∀ m0, currentLocation (loadIsochrones R m0 loc poiType).1 = Some loc) as Hloc.
  { intros m0. destruct (load_cases R m0 loc poiType)
      as [d Hc | spec Hc Hs | Hc Hs Hr | Hc Hs Hr Hw | Hc Hs Hr Hw].
    - destruct (loadIsochrones_hit R m0 loc poiType d Hc) as [_ ->]. done.
    - by rewrite (loadIsochrones_registered R m0 loc poiType spec).
    - by rewrite loadIsochrones_rejected.
    - by rewrite loadIsochrones_loaded.
    - by rewrite loadIsochrones_timed_out. }
  intros m'.
  assert (∀ poiType', statisticsKey m' poiType' = cacheKey poiType' loc) as Hkey.
  { intros p. unfold statisticsKey, m'. by rewrite Hloc. }
  split_and!; [apply Hloc | intros; apply Hloc | done |].
  intros p. by rewrite getStatistics_lookup, Hkey.
Qed.

(** * Further properties of the code *)

(** ** Keys and ids across categories *)

Lemma plain_split (p1 p2 r1 r2 : string) :
  plain p1 → plain p2 →
  p1 +:+ "-" +:+ r1 = p2 +:+ "-" +:+ r2 → p1 = p2 ∧ r1 = r2.
Proof.
  intros H1 H2 Heq. apply (f_equal chars) in Heq. rewrite !chars_app in Heq.
  simpl in Heq.
  apply (run_unique (λ c, c ≠ "-"%char)) in Heq as (E1 & _ & E2);
    [| done | done | by intros H | by intros H].
  split; by apply chars_inj.
Qed.

(** X1. For categories whose names have no hyphen, the key of the cache
    names one category and one pair of printed coordinates, and equal keys
    mean equal source ids. *)
Theorem cacheKey_plain_inj (p1 p2 : string) (loc1 loc2 : Location) :
  plain p1 → plain p2 →
  cacheKey p1 loc1 = cacheKey p2 loc2 →
  p1 = p2
  ∧ number_to_string (lat loc1) = number_to_string (lat loc2)
  ∧ number_to_string (lng loc1) = number_to_string (lng loc2)
  ∧ sourceId p1 loc1 = sourceId p2 loc2.
Proof.
  intros H1 H2 Heq. unfold cacheKey in Heq.
  destruct (plain_split _ _ _ _ H1 H2 Heq) as [-> _].
  destruct (cacheKey_numbers p2 loc1 loc2 Heq) as [Hlat Hlng].
  split_and!; [done | done | done | by apply cacheKey_sourceId].
Qed.

Lemma plain_coffee : plain "coffee".
Proof. unfold plain. simpl. repeat constructor; discriminate. Qed.

Lemma plain_bar : plain "bar".
Proof. unfold plain. simpl. repeat constructor; discriminate. Qed.

Lemma cacheKey_plain_inj_witness :
  "coffee" = "coffee"
  ∧ sourceId "coffee" Scenario.portland
    = sourceId "coffee" {| lat := Number 4365910 5; lng := Number (-702568) 4 |}.
Proof.
  destruct (cacheKey_plain_inj "coffee" "coffee" Scenario.portland
              {| lat := Number 4365910 5; lng := Number (-702568) 4 |}
              plain_coffee plain_coffee eq_refl) as (H1 & _ & _ & H2).
  by split.
Defined.

(** With a hyphen in a name the keys of two categories can meet. *)
Lemma cacheKey_hyphen_collision :
  cacheKey "a-" {| lat := Number 1 0; lng := Number 2 0 |}
  = cacheKey "a" {| lat := Number (-1) 0; lng := Number 2 0 |}.
Proof. reflexivity. Qed.

(** X2. For categories whose names have no hyphen, the source id names one
    category and one quantization: the two integers that [Math.round]
    returns for the binary64 products of the coordinates and 1000. *)
Theorem sourceId_plain_inj (p1 p2 : string) (loc1 loc2 : Location) :
  plain p1 → plain p2 →
  sourceId p1 loc1 = sourceId p2 loc2 →
  p1 = p2 ∧ quantize loc1 = quantize loc2.
Proof.
  intros H1 H2 Heq. unfold sourceId in Heq.
  apply (inj (String.append _)) in Heq.
  destruct (plain_split _ _ _ _ H1 H2 Heq) as [-> _].
  split; [done |]. apply (sourceId_quantize p2). unfold sourceId. by f_equal.
Qed.

Lemma sourceId_plain_inj_witness :
  quantize Scenario.portland
  = quantize {| lat := Number 436594 4; lng := Number (-702571) 4 |}.
Proof.
  apply (sourceId_plain_inj "bar" "bar" Scenario.portland
           {| lat := Number 436594 4; lng := Number (-702571) 4 |}
           plain_bar plain_bar eq_refl).
Defined.

(** The last character of a printed integer is a digit. *)
Lemma pretty_Z_last (z : Z) :
  ∃ l c, chars (pretty z) = l ++ [c] ∧ is_digit c.
Proof.
  destruct (pretty_Z_shape z) as (sign & d & E & _ & Hd & Hn).
  destruct (exists_last Hn) as (d' & c & ->).
  exists (sign ++ d'), c. split; [by rewrite E, app_assoc |].
  apply Forall_app in Hd as [_ Hc]. by inversion Hc.
Qed.

(** X3. The id of a marker layer names its category, and it is the id of
    no isochrone layer, whatever the categories and the band. *)
Theorem marker_ids_apart (p p' : string) (t : Z) :
  (MapConfig.marker_id (MapConfig.createPOILayerConfig p)
   = MapConfig.marker_id (MapConfig.createPOILayerConfig p') → p = p')
  ∧ MapConfig.marker_id (MapConfig.createPOILayerConfig p)
    ≠ MapConfig.id (MapConfig.createLayerConfig p' t)
  ∧ MapConfig.marker_id (MapConfig.createPOILayerConfig p) ≠ layerId p' t.
Proof.
  assert (p +:+ "-markers" ≠ layerId p' t) as Hne.
  { unfold layerId. intros Heq.
    apply (f_equal (λ s, rev (chars s))) in Heq.
    rewrite !chars_app, !rev_app_distr in Heq.
    destruct (pretty_Z_last t) as (l & c & E & Hc). rewrite E, rev_app_distr in Heq.
    simpl in Heq. injection Heq as <- _. discriminate Hc. }
  split_and!; [apply append_cancel_r | done | done].
Qed.

(** ** The archive of a category *)

Lemma replace_first_dotless (p sfx : string) :
  dotless p →
  replace_first ".pmtiles" "" (p +:+ sfx) = p +:+ replace_first ".pmtiles" "" sfx.
Proof.
  unfold dotless. induction p as [| c p IH]; intros Hp; [done |].
  simpl in Hp. inversion Hp as [| ? ? Hc Hp']; subst.
  change (String c p +:+ sfx) with (String c (p +:+ sfx)).
  cbn [replace_first].
  assert (String.prefix ".pmtiles" (String c (p +:+ sfx)) = false) as ->.
  { cbn [String.prefix]. destruct (ascii_dec "." c) as [E | _]; [by destruct Hc | done]. }
  change (String c p +:+ replace_first ".pmtiles" "" sfx)
    with (String c (p +:+ replace_first ".pmtiles" "" sfx)).
  f_equal. by apply IH.
Qed.

(** X4. The file of a category does not depend on the location: every
    source that is registered for the category has the same URL, and for a
    category name without a dot the source layer of its layers is the file
    name without its extension. *)
Theorem archive_ignores_location (R : Renderer) (poiType pmtilesSource : string)
    (loc1 loc2 : Location) (t : Z) :
  getPMTilesFileName poiType loc1 = getPMTilesFileName poiType loc2
  ∧ sourceSpecFor R poiType loc1 = sourceSpecFor R poiType loc2
  ∧ (dotless poiType →
       MapConfig.source_layer (layerConfigFor poiType pmtilesSource loc1 t)
       = Some (poiType +:+ "_Portland_ME_isochrones")).
Proof.
  assert (∀ loc, getPMTilesFileName poiType loc
                 = poiType +:+ "_Portland_ME_isochrones.pmtiles") as Hfile.
  { intros loc. unfold getPMTilesFileName.
    by destruct (_ && _). }
  split_and!.
  - by rewrite !Hfile.
  - unfold sourceSpecFor. by rewrite !Hfile.
  - intros Hp. unfold layerConfigFor. simpl. rewrite Hfile.
    by rewrite replace_first_dotless.
Qed.

Lemma dotless_grocery : dotless "grocery".
Proof. unfold dotless. simpl. repeat constructor; discriminate. Qed.

Lemma archive_ignores_location_witness :
  MapConfig.source_layer
    (layerConfigFor "grocery" "isochrones-grocery-43659--70257" Scenario.portland 5)
  = Some "grocery_Portland_ME_isochrones".
Proof.
  destruct (archive_ignores_location Scenario.prompt "grocery"
              "isochrones-grocery-43659--70257" Scenario.portland Scenario.portland 5)
    as (_ & _ & H).
  apply H, dotless_grocery.
Defined.

(** In a category name that holds the extension, it is the name that loses
    it. *)
Lemma source_layer_of_dotted_category :
  MapConfig.source_layer (layerConfigFor "a.pmtiles" "s" Scenario.portland 5)
  = Some "a_Portland_ME_isochrones.pmtiles".
Proof. reflexivity. Qed.

(** ** Layers: edges, repetition, restyling *)

Lemma forEach_try_fixed {A S : Type} (f : S → A → option S) (l : list A) (s : S) :
  (∀ x, x ∈ l → f s x = Some s) → forEach_try f l s = s.
Proof.
  induction l as [| x l IH]; intros H; simpl; [done |].
  rewrite H by (apply elem_of_cons; by left).
  apply IH. intros y Hy. apply H, elem_of_cons. by right.
Qed.

Lemma foldl_fixed {A S : Type} (f : S → A → S) (l : list A) (s : S) :
  (∀ x, x ∈ l → f s x = s) → foldl f s l = s.
Proof.
  induction l as [| x l IH]; intros H; simpl; [done |].
  rewrite H by (apply elem_of_cons; by left).
  apply IH. intros y Hy. apply H, elem_of_cons. by right.
Qed.

(** X5. Without a source for the category (it was never loaded), or without
    a current location, [addIsochroneLayers] changes nothing: the map gets no
    layer and nothing is thrown to the caller. *)
Theorem addIsochroneLayers_without_source_or_location (R : Renderer)
    (m : IsochroneManager) (poiType : string) (data : option FeatureCollection) :
  pmtilesSources m !! poiType = None ∨ currentLocation m = None →
  addIsochroneLayers R m poiType data = m.
Proof.
  intros [Hsrc | Hloc]; unfold addIsochroneLayers.
  - by rewrite Hsrc.
  - destruct (pmtilesSources m !! poiType); [| done].
    simpl. by rewrite addIsochroneLayer_no_location.
Qed.

Lemma addIsochroneLayers_without_source_or_location_witness :
  addIsochroneLayers Scenario.prompt
    (setCurrentLocation Scenario.coffee_shown None) "coffee" None
  = setCurrentLocation Scenario.coffee_shown None.
Proof.
  apply addIsochroneLayers_without_source_or_location. right. reflexivity.
Defined.

Lemma layerId_band_inj (poiType : string) (t t' : Z) :
  layerId poiType t = layerId poiType t' → t = t'.
Proof.
  unfold layerId. intros H. do 2 apply (inj (String.append _)) in H.
  by apply (inj pretty).
Qed.

(** X6. Adding the layers of a category a second time repeats nothing
    that succeeded and retries what was rejected. The layers of the map
    stay as they are; every band that the renderer accepts at the second
    call is in the map and in the Active Layer Set afterwards, and a band
    that was not in the map is created then; and when the renderer accepts
    at the second call no band that it rejected at the first, as when it
    decides alike both times, the second call changes nothing. *)
Theorem second_add_retries_rejected_bands (R R' : Renderer) (m : IsochroneManager)
    (poiType : string) (data data' : option FeatureCollection) :
  let m1 := addIsochroneLayers R m poiType data in
  let m2 := addIsochroneLayers R' m1 poiType data' in
  ((∀ t, t ∈ ISOCHRONE_CONFIG.timeIntervals →
         rejects_layer R' (layerId poiType t) = false →
         rejects_layer R (layerId poiType t) = false) →
   m2 = m1)
  ∧ (∀ src loc, pmtilesSources m !! poiType = Some src → currentLocation m = Some loc →
       (∀ l c, layers (map m1) !! l = Some c → layers (map m2) !! l = Some c)
       ∧ (∀ l, l ∈ activeLayers m2 ↔
               l ∈ activeLayers m1
               ∨ ∃ t, t ∈ ISOCHRONE_CONFIG.timeIntervals ∧ l = layerId poiType t
                      ∧ rejects_layer R' l = false)
       ∧ (∀ t, t ∈ ISOCHRONE_CONFIG.timeIntervals →
               rejects_layer R' (layerId poiType t) = false →
               is_Some (layers (map m2) !! layerId poiType t)
               ∧ (layers (map m1) !! layerId poiType t = None →
                  layers (map m2) !! layerId poiType t
                  = Some (layerConfigFor poiType src loc t)))).
Proof.
  intros m1 m2.
  destruct (pmtilesSources m !! poiType) as [src |] eqn:Hsrc; cycle 1.
  { split; [| done]. intros _. unfold m2, m1, addIsochroneLayers.
    rewrite Hsrc. by rewrite Hsrc. }
  destruct (currentLocation m) as [loc |] eqn:Hloc; cycle 1.
  { split; [| done]. intros _. unfold m2, m1, addIsochroneLayers. rewrite Hsrc. simpl.
    rewrite !addIsochroneLayer_no_location by done. rewrite Hsrc. simpl.
    by rewrite !addIsochroneLayer_no_location. }
  destruct (add_loop_spec R poiType src loc ISOCHRONE_CONFIG.timeIntervals m Hloc)
    as (Hloc1 & Hsrc1 & _ & _ & Hact & _ & _ & Hin).
  assert (m1 = forEach_try (addIsochroneLayer R poiType src)
                 ISOCHRONE_CONFIG.timeIntervals m) as Em1.
  { unfold m1, addIsochroneLayers. by rewrite Hsrc. }
  rewrite <- Em1 in Hloc1, Hsrc1, Hact, Hin.
  assert (m2 = forEach_try (addIsochroneLayer R' poiType src)
                 ISOCHRONE_CONFIG.timeIntervals m1) as Em2.
  { unfold m2, addIsochroneLayers. by rewrite Hsrc1, Hsrc. }
  split.
  - intros Hsame. rewrite Em2. apply forEach_try_fixed. intros t Ht.
    unfold addIsochroneLayer, addLayer. rewrite Hloc1. simpl.
    fold (layerId poiType t).
    destruct (rejects_layer R' (layerId poiType t)) eqn:Hrej; [done |].
    destruct (Hin t Ht (Hsame t Ht Hrej)) as [c Hc]. rewrite Hc. f_equal.
    assert ({[layerId poiType t]} ∪ activeLayers m1 = activeLayers m1) as ->.
    { apply subseteq_union_1_L, singleton_subseteq_l, Hact. right.
      exists t. auto. }
    rewrite <- Hloc1. by destruct m1.
  - intros src' loc' [= <-] [= <-].
    destruct (add_loop_spec R' poiType src loc ISOCHRONE_CONFIG.timeIntervals m1 Hloc1)
      as (_ & _ & _ & _ & Hact2 & Hkeep2 & Hnew2 & Hin2).
    rewrite <- Em2 in Hact2, Hkeep2, Hnew2, Hin2.
    split_and!; [done | done |].
    intros t Ht Hacc. split; [by apply Hin2 |]. intros Hnone.
    destruct (Hnew2 _ Hnone) as [E | (t' & _ & E & _ & Hcfg)].
    + destruct (Hin2 t Ht Hacc) as [c Hc]. congruence.
    + by apply layerId_band_inj in E as <-.
Qed.

Lemma second_add_retries_rejected_bands_witness :
  let m := (loadIsochrones Scenario.prompt Scenario.fresh Scenario.portland "coffee").1 in
  let m1 := addIsochroneLayers Scenario.rejecting_ten m "coffee" None in
  let m2 := addIsochroneLayers Scenario.prompt m1 "coffee" None in
  layers (map m1) !! "coffee-isochrone-10" = None
  ∧ is_Some (layers (map m2) !! "coffee-isochrone-10").
Proof.
  intros m m1 m2. split; [by vm_compute |].
  destruct (second_add_retries_rejected_bands Scenario.rejecting_ten Scenario.prompt
              m "coffee" None None) as [_ H].
  destruct (H "isochrones-coffee-43659--70257" Scenario.portland) as (_ & _ & H3).
  - by vm_compute.
  - by vm_compute.
  - apply (H3 10); [apply mem_bands_10 | reflexivity].
Defined.

(** X7. [removeIsochroneLayers] changes nothing when no layer of the
    category is in the map, as after a removal: removing twice is removing
    once. *)
Theorem removeIsochroneLayers_absent (m : IsochroneManager) (poiType : string) :
  ((∀ t, t ∈ ISOCHRONE_CONFIG.timeIntervals → layers (map m) !! layerId poiType t = None) →
   removeIsochroneLayers m poiType = m)
  ∧ removeIsochroneLayers (removeIsochroneLayers m poiType) poiType
    = removeIsochroneLayers m poiType.
Proof.
  assert (∀ m0, (∀ t, t ∈ ISOCHRONE_CONFIG.timeIntervals →
                      layers (map m0) !! layerId poiType t = None) →
                removeIsochroneLayers m0 poiType = m0) as Hnoop.
  { intros m0 H. apply foldl_fixed. intros t Ht.
    unfold removeIsochroneLayer, getLayer. by rewrite H. }
  split; [apply Hnoop |]. apply Hnoop. intros t Ht.
  destruct (removeIsochroneLayers_spec m poiType) as [Hlay _].
  rewrite Hlay, decide_True; [done |]. apply elem_of_layerIds. eauto.
Qed.

(** The layers of the map after a call of [loadIsochrones] are the layers
    before it. *)
Lemma loadIsochrones_layers (R : Renderer) (m : IsochroneManager) (loc : Location)
    (poiType : string) :
  layers (map (loadIsochrones R m loc poiType).1) = layers (map m)
  ∧ activeLayers (loadIsochrones R m loc poiType).1 = activeLayers m.
Proof.
  unfold loadIsochrones. rewrite loadIsochrones_call_eq.
  destruct (isochroneData m !! cacheKey poiType loc); [done |].
  destruct (sources (map m) !! sourceId poiType loc); [done |].
  destruct (rejects_source R (sourceId poiType loc)); [done |].
  by destruct (settlement R (sourceId poiType loc)).
Qed.

(** X8. A layer that is in the map is left as it is by [addIsochroneLayers]
    and by [generateIsochrones], at whatever location: after a move the
    layers of a category stay bound to the source and the source layer that
    they were created with, until they are removed. *)
Theorem existing_layers_keep_their_source (R : Renderer) (m : IsochroneManager)
    (loc : Location) (poiType l : string) (data : option FeatureCollection)
    (c : MapConfig.LayerConfig) :
  layers (map m) !! l = Some c →
  layers (map (addIsochroneLayers R m poiType data)) !! l = Some c
  ∧ layers (map (App.generateIsochrones R m loc poiType)) !! l = Some c.
Proof.
  intros Hl. split.
  - by apply addIsochroneLayers_active.
  - unfold App.generateIsochrones.
    destruct (loadIsochrones_layers R m loc poiType) as [Hlay _].
    destruct (loadIsochrones R m loc poiType) as [m' [d |]]; simpl in Hlay.
    + apply addIsochroneLayers_active. by rewrite Hlay.
    + by rewrite Hlay.
Qed.

Lemma existing_layers_keep_their_source_witness :
  let moved := {| lat := Number 437 1; lng := Number (-703) 1 |} in
  MapConfig.source
    <$> layers (map (App.generateIsochrones Scenario.prompt Scenario.coffee_shown
                       moved "coffee")) !! "coffee-isochrone-5"
  = Some (Some (sourceId "coffee" Scenario.portland))
  ∧ pmtilesSources (App.generateIsochrones Scenario.prompt Scenario.coffee_shown
                      moved "coffee") !! "coffee"
    = Some (sourceId "coffee" moved).
Proof.
  intros moved. split; [| by vm_compute].
  destruct (existing_layers_keep_their_source Scenario.prompt Scenario.coffee_shown moved
              "coffee" "coffee-isochrone-5" None
              (layerConfigFor "coffee" (sourceId "coffee" Scenario.portland)
                 Scenario.portland 5)) as [_ H].
  - by vm_compute.
  - by rewrite H.
Defined.

(** Closes a goal whose hypotheses disagree on the membership of an
    element in a list and in the list with one more element. *)
Ltac cons_contradiction :=
  match goal with
  | H : ¬ (_ ∈ _ :: _) |- _ =>
      apply H, elem_of_cons; first [by left | by right]
  | H : _ ∈ _ :: _ |- _ =>
      apply elem_of_cons in H as [? | ?]; done
  end.

(** The loop of [toggleIsochroneLayers] over a list of bands. *)
Lemma toggle_loop_spec (poiType : string) (visible : bool) (ts : list Z)
    (m : IsochroneManager) :
  let m' := foldl (λ m time,
                     let layerId := layerId poiType time in
                     match getLayer (map m) layerId with
                     | Some _ =>
                         with_map m (setVisibility (map m) layerId
                                       (if visible then "visible" else "none"))
                     | None => m
                     end) m ts in
  currentLocation m' = currentLocation m
  ∧ pmtilesSources m' = pmtilesSources m
  ∧ isochroneData m' = isochroneData m
  ∧ activeLayers m' = activeLayers m
  ∧ sources (map m') = sources (map m)
  ∧ ∀ l, layers (map m') !! l =
         if decide (l ∈ layerId poiType <$> ts)
         then with_visibility (visibility_of visible) <$> layers (map m) !! l
         else layers (map m) !! l.
Proof.
  revert m. induction ts as [| t ts IH]; intros m; simpl.
  - by split_and!.
  - set (m1 := match getLayer (map m) (layerId poiType t) with
               | Some _ => _ | None => m end).
    assert (currentLocation m1 = currentLocation m
            ∧ pmtilesSources m1 = pmtilesSources m
            ∧ isochroneData m1 = isochroneData m
            ∧ activeLayers m1 = activeLayers m
            ∧ sources (map m1) = sources (map m)
            ∧ ∀ l, layers (map m1) !! l =
                   if decide (l = layerId poiType t)
                   then with_visibility (visibility_of visible) <$> layers (map m) !! l
                   else layers (map m) !! l) as (H1 & H2 & H3 & H4 & H5 & H6).
    { unfold m1, getLayer.
      destruct (layers (map m) !! layerId poiType t) as [c |] eqn:E; simpl.
      - split_and!; try done. intros l. rewrite lookup_alter.
        repeat case_decide; subst; done.
      - split_and!; try done. intros l. case_decide; [subst; by rewrite E | done]. }
    destruct (IH m1) as (I1 & I2 & I3 & I4 & I5 & I6).
    split_and!; [by etrans | by etrans | by etrans | by etrans | by etrans |].
    intros l. rewrite I6, H6. clear.
    repeat case_decide; subst; try done; try (by destruct (layers (map m) !! _));
      exfalso; cons_contradiction.
Qed.

Lemma toggleIsochroneLayers_spec (m : IsochroneManager) (poiType : string)
    (visible : bool) :
  let m' := toggleIsochroneLayers m poiType visible in
  currentLocation m' = currentLocation m
  ∧ pmtilesSources m' = pmtilesSources m
  ∧ isochroneData m' = isochroneData m
  ∧ activeLayers m' = activeLayers m
  ∧ sources (map m') = sources (map m)
  ∧ ∀ l, layers (map m') !! l =
         if decide (l ∈ layerIds poiType)
         then with_visibility (visibility_of visible) <$> layers (map m) !! l
         else layers (map m) !! l.
Proof.
  destruct (toggle_loop_spec poiType visible ISOCHRONE_CONFIG.timeIntervals m)
    as (H1 & H2 & H3 & H4 & H5 & H6).
  split_and!; try done. intros l. unfold toggleIsochroneLayers. rewrite H6.
  unfold layerIds. repeat case_decide; try done; exfalso;
    rewrite elem_of_list_to_set in *; done.
Qed.

Lemma manager_eq (m m' : IsochroneManager) :
  currentLocation m' = currentLocation m →
  pmtilesSources m' = pmtilesSources m →
  isochroneData m' = isochroneData m →
  activeLayers m' = activeLayers m →
  sources (map m') = sources (map m) →
  (∀ l, layers (map m') !! l = layers (map m) !! l) →
  m' = m.
Proof.
  destruct m as [[s l] d a c p], m' as [[s' l'] d' a' c' p']. simpl.
  intros -> -> -> -> -> H. f_equal. f_equal. by apply map_eq.
Qed.

(** X9. [toggleIsochroneLayers] sets the visibility of the layers of the
    category that are in the map and touches nothing else: no layer is added
    or removed, the other properties of the layers, the other layers, the
    Active Layer Set, the sources and the cache are as before. The last call
    decides: hiding and then showing leaves the manager as showing alone
    does. *)
Theorem toggle_sets_visibility_only (m : IsochroneManager) (poiType : string)
    (visible visible' : bool) :
  let m' := toggleIsochroneLayers m poiType visible in
  activeLayers m' = activeLayers m
  ∧ isochroneData m' = isochroneData m
  ∧ sources (map m') = sources (map m)
  ∧ (∀ l, l ∈ layerIds poiType →
          layers (map m') !! l
          = with_visibility (visibility_of visible) <$> layers (map m) !! l)
  ∧ (∀ l, l ∉ layerIds poiType → layers (map m') !! l = layers (map m) !! l)
  ∧ toggleIsochroneLayers m' poiType visible' = toggleIsochroneLayers m poiType visible'.
Proof.
  intros m'.
  destruct (toggleIsochroneLayers_spec m poiType visible) as (H1 & H2 & H3 & H4 & H5 & H6).
  fold m' in H1, H2, H3, H4, H5, H6.
  split_and!; try done.
  - intros l Hl. by rewrite H6, decide_True.
  - intros l Hl. by rewrite H6, decide_False.
  - destruct (toggleIsochroneLayers_spec m' poiType visible')
      as (I1 & I2 & I3 & I4 & I5 & I6).
    destruct (toggleIsochroneLayers_spec m poiType visible')
      as (J1 & J2 & J3 & J4 & J5 & J6).
    apply manager_eq; try congruence.
    intros l. rewrite I6, J6, H6. case_decide; [| done].
    by destruct (layers (map m) !! l).
Qed.

(** The loop of [updateIsochroneColors] over a list of bands. *)
Lemma colors_loop_spec (poiType : string) (ts : list Z) (m : IsochroneManager) :
  let m' := foldl (λ m time,
                     let layerId := layerId poiType time in
                     match getLayer (map m) layerId with
                     | Some _ =>
                         let color := Isochrone.getIsochroneColor poiType time in
                         let outlineColor :=
                           Isochrone.getIsochroneOutlineColor poiType time in
                         with_map m (setPaintColors (map m) layerId color outlineColor)
                     | None => m
                     end) m ts in
  currentLocation m' = currentLocation m
  ∧ pmtilesSources m' = pmtilesSources m
  ∧ isochroneData m' = isochroneData m
  ∧ activeLayers m' = activeLayers m
  ∧ sources (map m') = sources (map m)
  ∧ (∀ l, l ∉ layerId poiType <$> ts → layers (map m') !! l = layers (map m) !! l)
  ∧ (∀ t, t ∈ ts →
          layers (map m') !! layerId poiType t
          = repaint poiType t <$> layers (map m) !! layerId poiType t).
Proof.
  revert m. induction ts as [| t ts IH]; intros m; simpl.
  - split_and!; try done. intros t Ht. by apply elem_of_nil in Ht.
  - set (m1 := match getLayer (map m) (layerId poiType t) with
               | Some _ => _ | None => m end).
    assert (currentLocation m1 = currentLocation m
            ∧ pmtilesSources m1 = pmtilesSources m
            ∧ isochroneData m1 = isochroneData m
            ∧ activeLayers m1 = activeLayers m
            ∧ sources (map m1) = sources (map m)
            ∧ ∀ l, layers (map m1) !! l =
                   if decide (l = layerId poiType t)
                   then repaint poiType t <$> layers (map m) !! l
                   else layers (map m) !! l) as (H1 & H2 & H3 & H4 & H5 & H6).
    { unfold m1, getLayer.
      destruct (layers (map m) !! layerId poiType t) as [c |] eqn:E; simpl.
      - split_and!; try done. intros l. rewrite lookup_alter.
        repeat case_decide; subst; done.
      - split_and!; try done. intros l. case_decide; [subst; by rewrite E | done]. }
    destruct (IH m1) as (I1 & I2 & I3 & I4 & I5 & I6 & I7).
    split_and!; [by etrans | by etrans | by etrans | by etrans | by etrans | |].
    + intros l Hl. etrans; [apply I6 |].
      * intros Hin. apply Hl, elem_of_cons. by right.
      * rewrite H6, decide_False; [done |]. intros ->. apply Hl, elem_of_cons. by left.
    + intros t' Ht'. destruct (decide (t' ∈ ts)) as [Hin | Hout].
      * etrans; [by apply I7 |]. rewrite H6. case_decide as Heq; [| done].
        apply layerId_band_inj in Heq as ->.
        by destruct (layers (map m) !! layerId poiType t).
      * apply elem_of_cons in Ht' as [-> | ?]; [| done].
        etrans; [apply I6 |].
        -- intros (t' & Heq & Hin)%list_elem_of_fmap.
           apply layerId_band_inj in Heq as ->. done.
        -- by rewrite H6, decide_True.
Qed.

(** The colours of a layer that [addIsochroneLayers] made are the colours
    of the tables of the manager. *)
Lemma repaint_created (poiType pmtilesSource : string) (loc : Location) (t : Z) :
  repaint poiType t (layerConfigFor poiType pmtilesSource loc t)
  = layerConfigFor poiType pmtilesSource loc t.
Proof. done. Qed.

(** X10. [updateIsochroneColors] gives every layer of the category that is
    in the map the two colours of its band from the tables of the manager
    and changes nothing else of it; the other layers, the Active Layer Set,
    the sources and the cache are as before. On the layers that
    [addIsochroneLayers] has just created it changes nothing at all. *)
Theorem restyle_sets_colors_only (R : Renderer) (m : IsochroneManager)
    (poiType : string) (data : option FeatureCollection) :
  let m' := updateIsochroneColors m poiType in
  activeLayers m' = activeLayers m
  ∧ isochroneData m' = isochroneData m
  ∧ sources (map m') = sources (map m)
  ∧ (∀ t, t ∈ ISOCHRONE_CONFIG.timeIntervals →
          layers (map m') !! layerId poiType t
          = repaint poiType t <$> layers (map m) !! layerId poiType t)
  ∧ (∀ l, l ∉ layerIds poiType → layers (map m') !! l = layers (map m) !! l)
  ∧ ((∀ t, t ∈ ISOCHRONE_CONFIG.timeIntervals →
           layers (map m) !! layerId poiType t = None) →
     updateIsochroneColors (addIsochroneLayers R m poiType data) poiType
     = addIsochroneLayers R m poiType data).
Proof.
  intros m'.
  assert (∀ m0, let m0' := updateIsochroneColors m0 poiType in
            currentLocation m0' = currentLocation m0
            ∧ pmtilesSources m0' = pmtilesSources m0
            ∧ isochroneData m0' = isochroneData m0
            ∧ activeLayers m0' = activeLayers m0
            ∧ sources (map m0') = sources (map m0)
            ∧ (∀ l, l ∉ layerIds poiType → layers (map m0') !! l = layers (map m0) !! l)
            ∧ (∀ t, t ∈ ISOCHRONE_CONFIG.timeIntervals →
                    layers (map m0') !! layerId poiType t
                    = repaint poiType t <$> layers (map m0) !! layerId poiType t))
    as Hspec.
  { intros m0.
    destruct (colors_loop_spec poiType ISOCHRONE_CONFIG.timeIntervals m0)
      as (H1 & H2 & H3 & H4 & H5 & H6 & H7).
    split_and!; try done. intros l Hl. apply H6. intros Hin. apply Hl.
    unfold layerIds. by rewrite elem_of_list_to_set. }
  destruct (Hspec m) as (H1 & H2 & H3 & H4 & H5 & H6 & H7).
  split_and!; try done.
  intros Habsent. set (ma := addIsochroneLayers R m poiType data).
  destruct (Hspec ma) as (A1 & A2 & A3 & A4 & A5 & A6 & A7).
  apply manager_eq; try done.
  intros l. destruct (decide (l ∈ layerIds poiType)) as [Hin | Hout]; [| by apply A6].
  apply elem_of_layerIds in Hin as (t & Ht & ->). rewrite (A7 t Ht).
  destruct (layers (map ma) !! layerId poiType t) as [c |] eqn:E; [| done].
  simpl. f_equal.
  unfold ma, addIsochroneLayers in E.
  destruct (pmtilesSources m !! poiType) as [src |]; [| by rewrite Habsent in E].
  destruct (currentLocation m) as [loc |] eqn:Hloc.
  - destruct (add_loop_spec R poiType src loc ISOCHRONE_CONFIG.timeIntervals m Hloc)
      as (_ & _ & _ & _ & _ & _ & Hnew & _).
    destruct (Hnew (layerId poiType t) (Habsent t Ht)) as [E' | (t' & _ & Heq & _ & E')].
    + congruence.
    + apply layerId_band_inj in Heq as <-. rewrite E' in E. injection E as <-.
      apply repaint_created.
  - simpl in E. rewrite addIsochroneLayer_no_location in E by done.
    by rewrite Habsent in E.
Qed.

(** ** Reset *)

(** X11. [clearAll] empties the cache and the Active Layer Set and takes
    the layers of the Active Layer Set, and no other layer, out of the map.
    The sources, the source of each category and the current location stay,
    and afterwards [getStatistics] returns [null] for every category. *)
Theorem clearAll_resets (m : IsochroneManager) :
  let m' := clearAll m in
  isochroneData m' = ∅
  ∧ activeLayers m' = ∅
  ∧ (∀ l, layers (map m') !! l
          = if decide (l ∈ activeLayers m) then None else layers (map m) !! l)
  ∧ sources (map m') = sources (map m)
  ∧ pmtilesSources m' = pmtilesSources m
  ∧ currentLocation m' = currentLocation m
  ∧ (∀ poiType, getStatistics m' poiType = None).
Proof.
  simpl. split_and!; try done.
  intros l. rewrite map_lookup_filter. simpl.
  destruct (layers (map m) !! l) as [c |]; simpl; [| by case_decide].
  case_decide; [by rewrite option_guard_False by (by intros ?) | by rewrite option_guard_True].
Qed.

(** ** Statistics of any descriptor *)

Lemma band_indicator (f : Feature) :
  ((if bool_decide (band_of f = Some 5%Z) then 1%nat else 0%nat)
   + (if bool_decide (band_of f = Some 10%Z) then 1%nat else 0%nat)
   + (if bool_decide (band_of f = Some 15%Z) then 1%nat else 0%nat))%nat
  = if in_band f then 1%nat else 0%nat.
Proof.
  unfold in_band, ISOCHRONE_CONFIG.timeIntervals.
  destruct (band_of f) as [z |].
  - repeat case_bool_decide; simplify_eq; try done; exfalso; set_solver.
  - repeat case_bool_decide; simplify_eq; try done; exfalso; set_solver.
Qed.

Lemma count_band_in_band (fs : list Feature) :
  (count_band 5 fs + count_band 10 fs + count_band 15 fs)%nat
  = length (List.filter in_band fs).
Proof.
  unfold count_band. induction fs as [| f fs IH]; [done |].
  pose proof (band_indicator f) as Hf. simpl.
  destruct (in_band f); repeat case_bool_decide; simpl in *; lia.
Qed.

(** X12. For any cached descriptor, [getStatistics] returns the number of
    its features as the total and, for each of the bands 5, 10 and 15 and for
    no other key, the number of the features whose time (or, when the time is
    missing or 0, whose duration) is that band. The three counts add up to
    the number of the features of a configured band, so to no more than the
    total: a feature of another band, or of none, is in the total only. *)
Theorem statistics_counts (m : IsochroneManager) (poiType : string)
    (data : FeatureCollection) :
  isochroneData m !! statisticsKey m poiType = Some data →
  getStatistics m poiType
  = Some {| total := length (features data);
            byTime := {[ 5 := count_band 5 (features data);
                         10 := count_band 10 (features data);
                         15 := count_band 15 (features data) ]} |}
  ∧ (count_band 5 (features data) + count_band 10 (features data)
     + count_band 15 (features data))%nat
    = length (List.filter in_band (features data))
  ∧ (count_band 5 (features data) + count_band 10 (features data)
     + count_band 15 (features data) ≤ length (features data))%nat.
Proof.
  intros H. split_and!.
  - unfold getStatistics. rewrite H. by do 2 f_equal.
  - apply count_band_in_band.
  - rewrite count_band_in_band.
    pose proof (List.filter_length in_band (features data)). lia.
Qed.

Lemma statistics_counts_witness :
  let data := {| collection_type := "FeatureCollection";
                 features := [ {| time := Some 5; duration := None |};
                               {| time := Some 0; duration := Some 10 |};
                               {| time := None; duration := Some 10 |};
                               {| time := Some 7; duration := Some 15 |} ];
                 properties := {| poi_type := "bar"; location := Scenario.portland;
                                  time_intervals := [5; 10; 15] |} |} in
  let m := {| map := empty_map;
              isochroneData := {[ cacheKey "bar" Scenario.portland := data ]};
              activeLayers := ∅; currentLocation := Some Scenario.portland;
              pmtilesSources := ∅ |} in
  getStatistics m "bar"
  = Some {| total := 4; byTime := {[ 5 := 1%nat; 10 := 2%nat; 15 := 0%nat ]} |}.
Proof.
  intros data m.
  destruct (statistics_counts m "bar" data) as (H & _); [apply lookup_singleton_eq |].
  rewrite H. reflexivity.
Defined.

(** ** Registered sources *)

Lemma updateIsochroneColors_frame (m : IsochroneManager) (poiType : string) :
  pmtilesSources (updateIsochroneColors m poiType) = pmtilesSources m
  ∧ sources (map (updateIsochroneColors m poiType)) = sources (map m).
Proof.
  destruct (colors_loop_spec poiType ISOCHRONE_CONFIG.timeIntervals m)
    as (_ & H2 & _ & _ & H5 & _).
  split; [exact H2 | exact H5].
Qed.

(** X13. In every state of a manager the source that it holds for a
    category is a source id of that category and is registered with the
    map. *)
Theorem tracked_sources_are_registered (m : IsochroneManager) (poiType sid : string) :
  reachable m →
  pmtilesSources m !! poiType = Some sid →
  is_Some (sources (map m) !! sid) ∧ ∃ loc, sid = sourceId poiType loc.
Proof.
  intros Hreach. revert poiType sid.
  induction Hreach as [mp | m loc _ IH | R m loc p _ IH | s m loc p _ IH
                       | R m p data _ IH | m p _ IH | m p visible _ IH
                       | m p _ IH | m _ IH]; intros q sid.
  - simpl. by rewrite lookup_empty.
  - apply IH.
  - rewrite loadIsochrones_call_eq.
    destruct (isochroneData m !! cacheKey p loc); [apply IH |].
    destruct (sources (map m) !! sourceId p loc) as [spec |] eqn:Hs.
    + simpl. rewrite lookup_insert. case_decide; [| apply IH].
      intros [= <-]. subst. split; [by rewrite Hs | eauto].
    + destruct (rejects_source R (sourceId p loc)); [apply IH |].
      simpl. rewrite lookup_insert. case_decide.
      * intros [= <-]. subst. rewrite lookup_insert_eq. eauto.
      * intros Hq. destruct (IH q sid Hq) as [[spec Hspec] Hloc]. split; [| done].
        rewrite lookup_insert. case_decide; eauto.
  - destruct s; apply IH.
  - destruct (addIsochroneLayers_frame R m p data) as (_ & -> & _ & ->). apply IH.
  - destruct (removeIsochroneLayers_frame m p) as (_ & -> & _ & ->). apply IH.
  - destruct (toggleIsochroneLayers_spec m p visible) as (_ & -> & _ & _ & -> & _).
    apply IH.
  - destruct (updateIsochroneColors_frame m p) as [-> ->]. apply IH.
  - apply IH.
Qed.

Lemma tracked_sources_are_registered_witness :
  is_Some (sources (map Scenario.all_shown) !! "isochrones-grocery-43659--70257").
Proof.
  apply (tracked_sources_are_registered Scenario.all_shown "grocery").
  - unfold Scenario.all_shown. simpl.
    repeat apply reachable_generateIsochrones. apply reachable_new.
  - by vm_compute.
Defined.

(** X14. No method of the manager removes or replaces a source: a source
    that is registered stays registered, with its URL, through loading,
    adding, removing, hiding, restyling and resetting. *)
Theorem sources_are_kept (R : Renderer) (m : IsochroneManager) (loc : Location)
    (poiType sid : string) (spec : SourceSpec) (s : Settlement)
    (data : option FeatureCollection) (visible : bool) :
  sources (map m) !! sid = Some spec →
  sources (map (loadIsochrones_call R m loc poiType).1) !! sid = Some spec
  ∧ sources (map (loadIsochrones_settled s m loc poiType).1) !! sid = Some spec
  ∧ sources (map (loadIsochrones R m loc poiType).1) !! sid = Some spec
  ∧ sources (map (addIsochroneLayers R m poiType data)) !! sid = Some spec
  ∧ sources (map (removeIsochroneLayers m poiType)) !! sid = Some spec
  ∧ sources (map (toggleIsochroneLayers m poiType visible)) !! sid = Some spec
  ∧ sources (map (updateIsochroneColors m poiType)) !! sid = Some spec
  ∧ sources (map (clearAll m)) !! sid = Some spec.
Proof.
  intros Hs.
  assert (sources (map (loadIsochrones_call R m loc poiType).1) !! sid = Some spec) as Hcall.
  { rewrite loadIsochrones_call_eq.
    destruct (isochroneData m !! cacheKey poiType loc); [done |].
    destruct (sources (map m) !! sourceId poiType loc) eqn:E; [done |].
    destruct (rejects_source R (sourceId poiType loc)); [done |].
    simpl. rewrite lookup_insert_ne; [done | congruence]. }
  split_and!.
  - done.
  - by destruct s.
  - rewrite loadIsochrones_sources.
    destruct (isochroneData m !! cacheKey poiType loc); [done |].
    destruct (sources (map m) !! sourceId poiType loc) eqn:E; [done |].
    destruct (rejects_source R (sourceId poiType loc)); [done |].
    rewrite lookup_insert_ne; [done | congruence].
  - by destruct (addIsochroneLayers_frame R m poiType data) as (_ & _ & _ & ->).
  - by destruct (removeIsochroneLayers_frame m poiType) as (_ & _ & _ & ->).
  - by destruct (toggleIsochroneLayers_spec m poiType visible) as (_ & _ & _ & _ & -> & _).
  - by destruct (updateIsochroneColors_frame m poiType) as [_ ->].
  - done.
Qed.

Lemma sources_are_kept_witness :
  is_Some (sources (map (clearAll Scenario.coffee_shown))
             !! "isochrones-coffee-43659--70257").
Proof.
  destruct (sources_are_kept Scenario.prompt Scenario.coffee_shown Scenario.portland
              "coffee" "isochrones-coffee-43659--70257"
              (sourceSpecFor Scenario.prompt "coffee" Scenario.portland)
              Fulfilled None true) as (_ & _ & _ & _ & _ & _ & _ & H).
  - by vm_compute.
  - rewrite H. by eexists.
Defined.

(** X15. When the source of a category and location is registered and the
    cache has no entry for them, as after a load that timed out or after a
    reset, [loadIsochrones] returns a descriptor at once, whatever the
    renderer: it registers nothing and waits for nothing, whether or not the
    source was ever confirmed as loaded. *)
Theorem registered_source_loads_at_once (R : Renderer) (m : IsochroneManager)
    (loc : Location) (poiType : string) (spec : SourceSpec) :
  isochroneData m !! cacheKey poiType loc = None →
  sources (map m) !! sourceId poiType loc = Some spec →
  ∃ m', loadIsochrones_call R m loc poiType
        = (m', Done (Some (createMockIsochroneData poiType loc)))
        ∧ map m' = map m
        ∧ isochroneData m' !! cacheKey poiType loc
          = Some (createMockIsochroneData poiType loc)
        ∧ pmtilesSources m' !! poiType = Some (sourceId poiType loc).
Proof.
  intros Hc Hs. rewrite loadIsochrones_call_eq, Hc, Hs. eexists. split; [done |].
  simpl. by rewrite !lookup_insert_eq.
Qed.

Lemma registered_source_loads_at_once_witness :
  ∃ m', loadIsochrones_call Scenario.stalled
          (loadIsochrones Scenario.stalled Scenario.fresh Scenario.portland "coffee").1
          Scenario.portland "coffee"
        = (m', Done (Some (createMockIsochroneData "coffee" Scenario.portland))).
Proof.
  destruct (registered_source_loads_at_once Scenario.stalled
              (loadIsochrones Scenario.stalled Scenario.fresh Scenario.portland "coffee").1
              Scenario.portland "coffee"
              (sourceSpecFor Scenario.stalled "coffee" Scenario.portland))
    as (m' & H & _).
  - by vm_compute.
  - by vm_compute.
  - by exists m'.
Defined.

(** ** Loads in one turn *)

Lemma call_after_settled (R : Renderer) (s : Settlement) (m : IsochroneManager)
    (loc : Location) (p1 p2 : string) :
  p1 ≠ p2 →
  loadIsochrones_call R (loadIsochrones_settled s m loc p1).1 loc p2
  = ((loadIsochrones_settled s (loadIsochrones_call R m loc p2).1 loc p1).1,
     (loadIsochrones_call R m loc p2).2).
Proof.
  intros Hne.
  assert (cacheKey p1 loc ≠ cacheKey p2 loc) as Hk.
  { intros E. by apply Hne, (cacheKey_category _ _ loc). }
  destruct s; [| simpl; by destruct (loadIsochrones_call R m loc p2)].
  rewrite !loadIsochrones_call_eq. simpl. rewrite lookup_insert_ne by done.
  destruct (isochroneData m !! cacheKey p2 loc); [done |].
  destruct (sources (map m) !! sourceId p2 loc); simpl.
  - do 2 f_equal. by apply insert_insert_ne.
  - by destruct (rejects_source R (sourceId p2 loc)).
Qed.

Lemma settled_result (s : Settlement) (m m' : IsochroneManager) (loc : Location)
    (p : string) :
  (loadIsochrones_settled s m loc p).2 = (loadIsochrones_settled s m' loc p).2.
Proof. by destruct s. Qed.

(** X16. Two categories loaded in one turn at one location leave the
    manager, and return, what loading the first and then the second would:
    neither the interleaving of the two calls nor the order in which their
    sources settle makes a difference. *)
Theorem loads_in_one_turn_are_sequential (R : Renderer) (m : IsochroneManager)
    (loc : Location) (p1 p2 : string) :
  p1 ≠ p2 →
  loadTogether R m loc p1 p2
  = let '(m1, r1) := loadIsochrones R m loc p1 in
    let '(m2, r2) := loadIsochrones R m1 loc p2 in
    (m2, r1, r2).
Proof.
  intros Hne. unfold loadTogether, loadIsochrones.
  destruct (loadIsochrones_call R m loc p1) as [m1 [r1 | sid1]].
  - destruct (loadIsochrones_call R m1 loc p2) as [m2 [r2 | sid2]]; [done |].
    by destruct (loadIsochrones_settled (settlement R sid2) m2 loc p2).
  - pose proof (call_after_settled R (settlement R sid1) m1 loc p1 p2 Hne) as Hc.
    destruct (loadIsochrones_call R m1 loc p2) as [m2 st] eqn:E2. simpl in Hc.
    pose proof (settled_result (settlement R sid1) m1 m2 loc p1) as Hr.
    destruct (loadIsochrones_settled (settlement R sid1) m1 loc p1) as [m1s r1] eqn:E1.
    simpl in Hc, Hr. rewrite Hc.
    destruct st as [r2 | sid2].
    + destruct (loadIsochrones_settled (settlement R sid1) m2 loc p1) as [m3 r1'].
      simpl in *. by subst.
    + destruct (settled_commute (settlement R sid1) (settlement R sid2) m2 loc p1 p2 Hne)
        as [Hm Hres].
      pose proof (settled_result (settlement R sid2) m2
                    (loadIsochrones_settled (settlement R sid1) m2 loc p1).1 loc p2) as Hr2.
      destruct (loadIsochrones_settled (settlement R sid1) m2 loc p1) as [m3 r1'] eqn:E3.
      simpl in *. subst r1'.
      case_decide.
      * by destruct (loadIsochrones_settled (settlement R sid2) m3 loc p2).
      * destruct (loadIsochrones_settled (settlement R sid2) m2 loc p2) as [m3' r2'].
        simpl in *.
        destruct (loadIsochrones_settled (settlement R sid1) m3' loc p1) as [m4 r1'].
        destruct (loadIsochrones_settled (settlement R sid2) m3 loc p2) as [m4' r2''].
        simpl in *. by subst.
Qed.

Lemma loads_in_one_turn_are_sequential_witness :
  loadTogether Scenario.slow_bar Scenario.fresh Scenario.portland "bar" "coffee"
  = let '(m1, r1) := loadIsochrones Scenario.slow_bar Scenario.fresh
                       Scenario.portland "bar" in
    let '(m2, r2) := loadIsochrones Scenario.slow_bar m1 Scenario.portland "coffee" in
    (m2, r1, r2).
Proof. by apply (loads_in_one_turn_are_sequential). Defined.

(** ** The page *)

Lemma foldl_alter_lookup {T A : Type} (key : T → string) (f : T → A → A)
    (step : gmap string A → T → gmap string A) (xs : list T) (doc : gmap string A) :
  (∀ d x k, step d x !! k = if decide (k = key x) then f x <$> d !! k else d !! k) →
  (∀ x y, x ∈ xs → y ∈ xs → key x = key y → x = y) →
  NoDup xs →
  (∀ x, x ∈ xs → foldl step doc xs !! key x = f x <$> doc !! key x)
  ∧ (∀ k, (∀ x, x ∈ xs → key x ≠ k) → foldl step doc xs !! k = doc !! k).
Proof.
  intros Hstep. revert doc. induction xs as [| x xs IH]; intros doc Hinj Hnd.
  - split; [| done]. intros x Hx. by apply elem_of_nil in Hx.
  - apply NoDup_cons in Hnd as [Hx Hnd]. simpl.
    destruct (IH (step doc x)) as [IH1 IH2]; [| done |].
    { intros y z Hy Hz. apply Hinj; by apply list_elem_of_further. }
    assert (∀ y, y ∈ xs → key y ≠ key x) as Hfresh.
    { intros y Hy E. apply Hinj in E; [by subst | by apply list_elem_of_further |].
      apply elem_of_cons. by left. }
    split.
    + intros y [-> | Hy]%elem_of_cons.
      * rewrite IH2 by done. rewrite Hstep. by rewrite decide_True.
      * rewrite IH1 by done. rewrite Hstep. rewrite decide_False; [done |].
        by apply Hfresh.
    + intros k Hk. rewrite IH2.
      * rewrite Hstep. rewrite decide_False; [done |].
        intros ->. apply (Hk x); [| done]. apply elem_of_cons. by left.
      * intros y Hy. apply Hk. by apply list_elem_of_further.
Qed.

Lemma buttonId_inj (poiType : string) (t t' : Z) :
  buttonId poiType t = buttonId poiType t' → t = t'.
Proof.
  unfold buttonId. intros E.
  apply (inj (String.append poiType)), (inj (String.append "-")) in E.
  by apply (inj pretty) in E.
Qed.

(** X17. [setActiveTimeInterval] never reads the time that it is given.
    Every band button of the category that the page has loses the three
    opacity classes and gets ["bg-opacity-60"], whatever its band; its other
    classes and its text stay, no other element of the page changes, and the
    layers of the category are set visible. *)
Theorem every_band_button_gets_full_opacity (app : Main.CoffeeMilkBeerApp)
    (poiType : string) (time : Z) :
  let app' := Main.setActiveTimeInterval app poiType time in
  (∀ time', Main.setActiveTimeInterval app poiType time' = app')
  ∧ (∀ t, t ∈ ISOCHRONE_CONFIG.timeIntervals →
          Main.document app' !! buttonId poiType t
          = highlighted <$> Main.document app !! buttonId poiType t)
  ∧ (∀ id, id ∉ buttonId poiType <$> ISOCHRONE_CONFIG.timeIntervals →
           Main.document app' !! id = Main.document app !! id)
  ∧ Main.isochroneManager app'
    = toggleIsochroneLayers (Main.isochroneManager app) poiType true
  ∧ Main.activePOITypes app' = Main.activePOITypes app
  ∧ Main.currentLocation app' = Main.currentLocation app.
Proof.
  intros app'. split; [done |].
  set (f := λ (t : Z) (button : Main.Element),
              {| Main.classList :=
                   {["bg-opacity-" +:+ pretty (Z.min (20 + t * 10) 60)]}
                   ∪ (Main.classList button
                      ∖ {[ "bg-opacity-40"; "bg-opacity-50"; "bg-opacity-60" ]});
                 Main.textContent := Main.textContent button |}).
  destruct (foldl_alter_lookup (buttonId poiType) f
              (λ doc t, alter (f t) (buttonId poiType t) doc)
              ISOCHRONE_CONFIG.timeIntervals (Main.document app)) as [H1 H2].
  { intros d x k. rewrite lookup_alter. by repeat case_decide; subst. }
  { intros x y _ _. apply buttonId_inj. }
  { unfold ISOCHRONE_CONFIG.timeIntervals. repeat constructor; set_solver. }
  split_and!; [| | reflexivity | reflexivity | reflexivity].
  - intros t Ht. etrans; [by apply H1 |].
    assert (pretty (Z.min (20 + t * 10) 60) = "60") as Hcap.
    { by apply band_cases in Ht as [-> | [-> | ->]]; vm_compute. }
    destruct (Main.document app !! buttonId poiType t) as [button |]; simpl;
      [| reflexivity].
    unfold f, highlighted. rewrite Hcap. reflexivity.
  - intros id Hid. apply H2. intros t Ht <-. apply Hid.
    apply list_elem_of_fmap. eauto.
Qed.

(** X18. The counts that [updateSidebarCounts] writes for a manager are all
    0: the count element of every active category that the page has
    shows ["0"], whether or not the category has a descriptor at the current
    location, and no other element changes. *)
Theorem sidebar_counts_are_zero (app : Main.CoffeeMilkBeerApp) :
  reachable (Main.isochroneManager app) →
  let app' := Main.updateSidebarCounts app in
  (∀ p, p ∈ Main.POI_TYPES → p ∈ Main.activePOITypes app →
        Main.document app' !! countId p
        = with_text "0" <$> Main.document app !! countId p)
  ∧ (∀ p, p ∉ Main.activePOITypes app →
          Main.document app' !! countId p = Main.document app !! countId p)
  ∧ (∀ id, id ∉ countId <$> Main.POI_TYPES →
           Main.document app' !! id = Main.document app !! id)
  ∧ Main.isochroneManager app' = Main.isochroneManager app.
Proof.
  intros [Hwf _]%reachable_invariant app'.
  set (f := λ (p : string), if decide (p ∈ Main.activePOITypes app)
                            then with_text "0" else id).
  assert (∀ x y, countId x = countId y → x = y) as Hinj.
  { intros x y. apply append_cancel_r. }
  destruct (foldl_alter_lookup countId f
              (λ doc poiType,
                 if decide (poiType ∈ Main.activePOITypes app) then
                   let stats := getStatistics (Main.isochroneManager app) poiType in
                   Main.updatePOICount doc poiType
                     ((λ s, replicate (total s) ()) <$> stats)
                 else doc)
              Main.POI_TYPES (Main.document app)) as [H1 H2].
  { intros d x k. unfold f. case_decide.
    - assert (Main.updatePOICount d x
                ((λ s, replicate (total s) ()) <$>
                   getStatistics (Main.isochroneManager app) x)
              = alter (with_text "0") (countId x) d) as ->.
      { rewrite getStatistics_lookup.
        destruct (isochroneData (Main.isochroneManager app)
                    !! statisticsKey (Main.isochroneManager app) x)
          as [data |] eqn:E; [| done].
        by apply Hwf in E as (q & loc & _ & ->). }
      rewrite lookup_alter. by repeat case_decide; subst.
    - case_decide; [by rewrite option_fmap_id | done]. }
  { intros x y _ _. apply Hinj. }
  { unfold Main.POI_TYPES. repeat constructor; set_solver. }
  split_and!; [| | | reflexivity].
  - intros p Hp Hact. etrans; [by apply H1 |]. unfold f. by rewrite decide_True.
  - intros p Hact.
    destruct (decide (p ∈ Main.POI_TYPES)) as [Hp | Hp].
    + etrans; [by apply H1 |]. unfold f. rewrite decide_False by done.
      by rewrite option_fmap_id.
    + apply H2. intros x Hx E. apply Hinj in E. by subst.
  - intros id Hid. apply H2. intros x Hx <-. apply Hid.
    apply list_elem_of_fmap. eauto.
Qed.

Lemma sidebar_counts_are_zero_witness :
  let app := {| Main.isochroneManager := Scenario.coffee_shown;
                Main.currentLocation := Some Scenario.portland;
                Main.activePOITypes := {["coffee"]};
                Main.document :=
                  {[ "coffee-count" := {| Main.classList := ∅;
                                          Main.textContent := "7" |} ]} |} in
  Main.document (Main.updateSidebarCounts app) !! "coffee-count"
  = Some {| Main.classList := ∅; Main.textContent := "0" |}.
Proof.
  intros app. destruct (sidebar_counts_are_zero app) as (H & _).
  - apply reachable_generateIsochrones, reachable_new.
  - etrans; [apply (H "coffee"); set_solver |]. by vm_compute.
Defined.

(** X19. Switching a category off and on again at a location where it is
    loaded: switching off removes its layers from the map, takes it from the
    active categories and shows the count ["0"]; switching on brings back
    the layers of all bands that the renderer accepts from the cache, with no
    registration of a source, and shows the number of features of the
    descriptor. If the layers were in the Active Layer Set before, the set is
    what it was. *)
Theorem toggle_off_then_on (R : Renderer) (app : Main.CoffeeMilkBeerApp)
    (poiType src : string) (loc : Location) (d : FeatureCollection) :
  Main.currentLocation app = Some loc →
  isochroneData (Main.isochroneManager app) !! cacheKey poiType loc = Some d →
  pmtilesSources (Main.isochroneManager app) !! poiType = Some src →
  (∀ t, t ∈ ISOCHRONE_CONFIG.timeIntervals → rejects_layer R (layerId poiType t) = false) →
  let m := Main.isochroneManager app in
  let off := Main.togglePOIType R app poiType false in
  let on := Main.togglePOIType R off poiType true in
  (poiType ∉ Main.activePOITypes off)
  ∧ (∀ l, l ∈ layerIds poiType → layers (map (Main.isochroneManager off)) !! l = None)
  ∧ Main.document off !! countId poiType
    = with_text "0" <$> Main.document app !! countId poiType
  ∧ Main.activePOITypes on = {[poiType]} ∪ Main.activePOITypes app
  ∧ activeLayers (Main.isochroneManager on) = activeLayers m ∪ layerIds poiType
  ∧ (layerIds poiType ⊆ activeLayers m →
     activeLayers (Main.isochroneManager on) = activeLayers m)
  ∧ (∀ t, t ∈ ISOCHRONE_CONFIG.timeIntervals →
          layers (map (Main.isochroneManager on)) !! layerId poiType t
          = Some (layerConfigFor poiType src loc t))
  ∧ sources (map (Main.isochroneManager on)) = sources (map m)
  ∧ isochroneData (Main.isochroneManager on) = isochroneData m
  ∧ Main.document on !! countId poiType
    = with_text (pretty (length (features d))) <$> Main.document app !! countId poiType.
Proof.
  intros Hloc Hd Hsrc Hacc m off on.
  change (Main.isochroneManager app) with m in Hd, Hsrc.
  destruct (removeIsochroneLayers_spec m poiType) as [Hlay Hact].
  destruct (removeIsochroneLayers_frame m poiType) as (F1 & F2 & F3 & F4).
  set (m1 := removeIsochroneLayers m poiType) in *.
  assert (on = {| Main.isochroneManager :=
                    addIsochroneLayers R (setCurrentLocation m1 (Some loc)) poiType (Some d);
                  Main.currentLocation := Some loc;
                  Main.activePOITypes :=
                    {[poiType]} ∪ (Main.activePOITypes app ∖ {[poiType]});
                  Main.document :=
                    Main.updatePOICount
                      (Main.updatePOICount (A := Feature) (Main.document app) poiType None)
                      poiType (Some (features d)) |}) as ->.
  { unfold on, off, Main.togglePOIType, Main.generateIsochrones. simpl. rewrite Hloc.
    fold m m1.
    destruct (loadIsochrones_hit R m1 loc poiType d) as [_ ->]; [by rewrite F3 |].
    done. }
  simpl.
  assert (addIsochroneLayers R (setCurrentLocation m1 (Some loc)) poiType (Some d)
          = forEach_try (addIsochroneLayer R poiType src)
              ISOCHRONE_CONFIG.timeIntervals (setCurrentLocation m1 (Some loc))) as ->.
  { unfold addIsochroneLayers. simpl. by rewrite F2, Hsrc. }
  destruct (add_loop_spec R poiType src loc ISOCHRONE_CONFIG.timeIntervals
              (setCurrentLocation m1 (Some loc)) eq_refl)
    as (_ & _ & A3 & A4 & A5 & A6 & A7 & A8).
  change (isochroneData (setCurrentLocation m1 (Some loc))) with (isochroneData m1) in A3.
  change (activeLayers (setCurrentLocation m1 (Some loc))) with (activeLayers m1) in A5.
  change (map (setCurrentLocation m1 (Some loc))) with (map m1) in A4, A6, A7.
  assert (activeLayers
            (forEach_try (addIsochroneLayer R poiType src)
               ISOCHRONE_CONFIG.timeIntervals (setCurrentLocation m1 (Some loc)))
          = activeLayers m ∪ layerIds poiType) as Hactive.
  { apply set_eq. intros l. rewrite A5, Hact, elem_of_union, elem_of_layerIds. split.
    - intros [[? _] | (t & Ht & -> & _)]; [by left | right; eauto].
    - intros [Hl | (t & Ht & ->)].
      + destruct (decide (l ∈ layerIds poiType)) as [Hin | Hout].
        * apply elem_of_layerIds in Hin as (t & Ht & ->). right. exists t. auto.
        * left. split; [done |]. intros [Hin _]. by apply Hout, elem_of_layerIds.
      + right. exists t. auto. }
  split_and!.
  - set_solver.
  - intros l Hl. rewrite Hlay. by rewrite decide_True.
  - unfold Main.updatePOICount, countId. by rewrite lookup_alter, decide_True.
  - apply set_eq. intros x. rewrite !elem_of_union, elem_of_difference, elem_of_singleton.
    destruct (decide (x = poiType)); naive_solver.
  - done.
  - intros Hsub. rewrite Hactive. clear -Hsub. set_solver.
  - intros t Ht.
    destruct (A7 (layerId poiType t)) as [Hnone | (t' & _ & E & _ & Hcfg)].
    + rewrite Hlay. rewrite decide_True; [done |]. apply elem_of_layerIds. eauto.
    + destruct (A8 t Ht (Hacc t Ht)) as [c Hc]. congruence.
    + apply layerId_band_inj in E as <-. done.
  - by rewrite A4.
  - by rewrite A3.
  - unfold Main.updatePOICount, countId.
    rewrite !lookup_alter, !decide_True by done.
    by destruct (Main.document app !! (poiType +:+ "-count")).
Qed.

Lemma toggle_off_then_on_witness :
  let app := {| Main.isochroneManager := Scenario.coffee_shown;
                Main.currentLocation := Some Scenario.portland;
                Main.activePOITypes := {["coffee"]};
                Main.document :=
                  {[ "coffee-count" := {| Main.classList := ∅;
                                          Main.textContent := "0" |} ]} |} in
  let off := Main.togglePOIType Scenario.prompt app "coffee" false in
  let on := Main.togglePOIType Scenario.prompt off "coffee" true in
  activeLayers (Main.isochroneManager on)
  = activeLayers Scenario.coffee_shown ∪ layerIds "coffee".
Proof.
  intros app off on.
  destruct (toggle_off_then_on Scenario.prompt app "coffee"
              "isochrones-coffee-43659--70257" Scenario.portland
              (createMockIsochroneData "coffee" Scenario.portland))
    as (_ & _ & _ & _ & H & _).
  - reflexivity.
  - by vm_compute.
  - by vm_compute.
  - intros t Ht. reflexivity.
  - exact H.
Defined.
